(** * Tic Tac Toe front end (src/frontend/src/App.js)

    A shallow embedding of the game logic of [App.js]: the winner
    evaluator [calculateWinner], the derived fields [deriveStatus], the
    click and reset handlers, the optional backend client [loadLatest] and
    the load effect [run] that applies a remote snapshot.

    JavaScript values are a first-order datatype; numbers are binary64
    floats, as in the language.  The content of React's [useState] cells is
    passed to the handlers and returned by them. *)

From Stdlib Require Import Floats.PrimFloat Strings.Ascii.
From stdpp Require Import base option list strings gmap.

Local Open Scope string_scope.

(** ** JavaScript values *)

Module Js.

(** What [JSON.parse] can produce, plus [undefined] (the value of a
    missing property or of an index outside an array). [JsObject] lists
    the own properties of the object; a parsed object has each key once. *)
#[warnings="-register-all"]
Inductive value : Type :=
| JsUndefined
| JsNull
| JsBool (b : bool)
| JsNumber (x : float)
| JsString (s : string)
| JsArray (items : list value)
| JsObject (props : list (string * value)).

(** [ToBoolean]: what [if (v)], [!v], [v && _], [v || _] and
    [Boolean(v)] test. *)
Definition truthy (v : value) : bool :=
  match v with
  | JsUndefined | JsNull => false
  | JsBool b => b
  | JsNumber x => negb (PrimFloat.is_zero x || PrimFloat.is_nan x)
  | JsString s => negb (s =? "")
  | JsArray _ | JsObject _ => true
  end.

(** [v == null], the test behind [v ?? w]. *)
Definition nullish (v : value) : bool :=
  match v with
  | JsUndefined | JsNull => true
  | _ => false
  end.

(** [v ?? w] *)
Definition coalesce (v w : value) : value := if nullish v then w else v.

(** [v === w] where [v] and [w] are not one and the same reference (two
    different cells of a parsed board, or a property and a literal).
    Primitives compare by value; arrays and objects compare by
    reference, hence [false]. *)
Definition strict_eq (v w : value) : bool :=
  match v, w with
  | JsUndefined, JsUndefined => true
  | JsNull, JsNull => true
  | JsBool a, JsBool b => Bool.eqb a b
  | JsNumber x, JsNumber y => PrimFloat.eqb x y
  | JsString s, JsString t => (s =? t)
  | _, _ => false
  end.

(** [arr[i]]: [undefined] outside the array. *)
Definition index (arr : list value) (i : nat) : value :=
  default JsUndefined (arr !! i).

(** [arr[i] = v] on a fresh copy of [arr]: inside the array the cell is
    replaced; outside, JavaScript grows the array, the cells in between
    reading [undefined]. *)
Fixpoint assign (arr : list value) (i : nat) (v : value) : list value :=
  match i, arr with
  | 0, [] => [v]
  | 0, _ :: rest => v :: rest
  | S j, [] => JsUndefined :: assign [] j v
  | S j, x :: rest => x :: assign rest j v
  end.

(** [obj.key] for a value that passed a truthiness test and a key that
    no prototype defines (all six keys [App.js] reads are such): the own
    property of an object, [undefined] on anything else. *)
Fixpoint lookup_prop (props : list (string * value)) (key : string) : value :=
  match props with
  | [] => JsUndefined
  | (k, v) :: rest => if (k =? key) then v else lookup_prop rest key
  end.

Definition prop (obj : value) (key : string) : value :=
  match obj with
  | JsObject props => lookup_prop props key
  | _ => JsUndefined
  end.

(** [Array.isArray(v)] *)
Definition isArray (v : value) : bool :=
  match v with JsArray _ => true | _ => false end.

(** [Number.isFinite(v)]: a number that is neither NaN nor infinite. *)
Definition isFinite (v : value) : bool :=
  match v with JsNumber x => PrimFloat.is_finite x | _ => false end.

(** The number an array length or a count is (exact: lengths stay far
    below 2^53). *)
Fixpoint number_of_nat (n : nat) : float :=
  match n with
  | 0 => PrimFloat.zero
  | S k => PrimFloat.add (number_of_nat k) PrimFloat.one
  end.

End Js.

Import Js.

(** ** Marks *)

Definition markX : value := JsString "X".
Definition markO : value := JsString "O".

(** A mark is ["X"] or ["O"]. *)
Definition is_mark (v : value) : Prop := v = markX ∨ v = markO.

(** ** calculateWinner *)

(** The [lines] constant of [calculateWinner]. *)
Definition lines : list (nat * nat * nat) :=
  [ (0, 1, 2); (3, 4, 5); (6, 7, 8);
    (0, 3, 6); (1, 4, 7); (2, 5, 8);
    (0, 4, 8); (2, 4, 6) ].

(** The test of the loop body,
    [v && v === board[b] && v === board[c]] with [v = board[a]]. *)
Definition line_holds (board : list value) (line : nat * nat * nat) : bool :=
  let '(a, b, c) := line in
  let v := index board a in
  truthy v && strict_eq v (index board b) && strict_eq v (index board c).

(** The [for ... of] loop with its early [return v]; falling off the end
    is the final [return null]. *)
Fixpoint calculateWinner_loop (board : list value)
    (todo : list (nat * nat * nat)) : value :=
  match todo with
  | [] => JsNull
  | (a, b, c) :: rest =>
      let v := index board a in
      if truthy v && strict_eq v (index board b) && strict_eq v (index board c)
      then v
      else calculateWinner_loop board rest
  end.

Definition calculateWinner (board : list value) : value :=
  calculateWinner_loop board lines.

(** ** Calls that may throw *)

(** The result of a call (or of an awaited promise): a value, or a thrown
    exception (a rejected promise). *)
Inductive outcome (A : Type) : Type :=
| Returned (a : A)
| Thrown (e : value).
Arguments Returned {A} a.
Arguments Thrown {A} e.

#[global] Instance outcome_ret : MRet outcome := λ A a, Returned a.
#[global] Instance outcome_bind : MBind outcome := λ A B k c,
  match c with
  | Returned a => k a
  | Thrown e => Thrown e
  end.

(** [try { body } catch (_e) { handler }] *)
Definition try_catch {A : Type} (body : outcome A) (handler : value → outcome A)
  : outcome A :=
  match body with
  | Returned a => Returned a
  | Thrown e => handler e
  end.

(** ** deriveStatus *)

Module Derived.
(** The object [deriveStatus] returns. [moves] is an array length. *)
Record t : Type := Build {
  winner : value;
  isDraw : bool;
  moves : nat;
  status : string;
}.
End Derived.

(** The game object held by [useState]. *)
Record GameState : Type := mkGameState {
  board : list value;
  nextPlayer : string;
  status : string;
  winner : value;
  isDraw : bool;
  moves : float;
  updatedAt : value;
}.

Section App.

(** [Number.prototype.toString], the decimal rendering of a number by the
    JavaScript runtime. *)
Variable numberToString : float → string.

(** [ToString], what a template literal applies to its holes. *)
Fixpoint toString (v : value) : string :=
  match v with
  | JsUndefined => "undefined"
  | JsNull => "null"
  | JsBool b => if b then "true" else "false"
  | JsNumber x => numberToString x
  | JsString s => s
  | JsArray items =>
      (fix join (l : list value) : string :=
         match l with
         | [] => ""
         | x :: rest =>
             (if nullish x then "" else toString x)
             ++ match rest with [] => "" | _ :: _ => "," ++ join rest end
         end) items
  | JsObject _ => "[object Object]"
  end.

Definition deriveStatus (board : list value) (nextPlayer : string) : Derived.t :=
  let winner := calculateWinner board in
  let moves := length (List.filter truthy board) in
  let isDraw := negb (truthy winner) && (moves =? 9)%nat in
  if truthy winner then
    {| Derived.winner := winner;
       Derived.isDraw := false;
       Derived.moves := moves;
       Derived.status := "Winner: " ++ toString winner |}
  else if isDraw then
    {| Derived.winner := JsNull;
       Derived.isDraw := true;
       Derived.moves := moves;
       Derived.status := "Draw" |}
  else
    {| Derived.winner := JsNull;
       Derived.isDraw := false;
       Derived.moves := moves;
       Derived.status := "Next player: " ++ nextPlayer |}.

(** ** Local play *)

(** [now] is the reading of [new Date().toISOString()] at the call. *)
Definition createEmptyGameState (now : string) : GameState :=
  {| board := replicate 9 JsNull;
     nextPlayer := "X";
     status := "Next player: X";
     winner := JsNull;
     isDraw := false;
     moves := PrimFloat.zero;
     updatedAt := JsString now |}.

(** [const canPlay = !game.winner && !game.isDraw] *)
Definition canPlay (game : GameState) : bool :=
  negb (truthy (winner game)) && negb (isDraw game).

(** The handlers return the content of the [game] cell after the call:
    the argument of [setGame] when they call it, [game] itself when they
    return early. *)
Definition handleSquareClick (now : string) (game : GameState) (index : nat)
  : GameState :=
  if negb (canPlay game) then game
  else if truthy (Js.index (board game) index) then game
  else
    let nextBoard := assign (board game) index (JsString (nextPlayer game)) in
    let nextPlayer := if (nextPlayer game =? "X") then "O" else "X" in
    let derived := deriveStatus nextBoard nextPlayer in
    {| board := nextBoard;
       nextPlayer := nextPlayer;
       status := Derived.status derived;
       winner := Derived.winner derived;
       isDraw := Derived.isDraw derived;
       moves := number_of_nat (Derived.moves derived);
       updatedAt := JsString now |}.

Definition handleReset (now : string) (game : GameState) : GameState :=
  createEmptyGameState now.

(** ** The optional backend *)

(** The two variables [useOptionalGameApi] reads from [process.env];
    [None] is an unset variable ([undefined]). *)
Record ProcessEnv : Type := mkProcessEnv {
  REACT_APP_BACKEND_URL : option string;
  REACT_APP_API_BASE : option string;
}.

(** [a || b] for an environment variable [a] and a string [b]. *)
Definition env_or (a : option string) (b : string) : string :=
  match a with
  | Some s => if (s =? "") then b else s
  | None => b
  end.

(** [raw.replace(/\/+$/, "")]: drop the trailing run of slashes. *)
Fixpoint stripTrailingSlashes (raw : string) : string :=
  match raw with
  | EmptyString => EmptyString
  | String c rest =>
      let rest' := stripTrailingSlashes rest in
      if Ascii.eqb c "/"%char && (rest' =? "") then EmptyString else String c rest'
  end.

(** What [useOptionalGameApi] computes before its two functions. *)
Record Api : Type := mkApi {
  enabled : bool;
  baseUrl : string;
}.

Definition useOptionalGameApi (env : ProcessEnv) : Api :=
  let raw := env_or (REACT_APP_BACKEND_URL env) (env_or (REACT_APP_API_BASE env) "") in
  let baseUrl := stripTrailingSlashes raw in
  {| enabled := negb (baseUrl =? ""); baseUrl := baseUrl |}.

(** The part of a [fetch] response the client reads: [res.ok] and the
    result of [res.json()], which throws on a body that is not JSON. *)
Record Response : Type := mkResponse {
  ok : bool;
  json : outcome value;
}.

(** The network: what [fetch(url, {method: "GET", ...})] resolves to, or
    the error it rejects with. *)
Definition Fetch : Type := string → outcome Response.

Definition loadLatest (api : Api) (fetch : Fetch) : outcome value :=
  if negb (enabled api) then mret JsNull
  else
    try_catch
      (res ← fetch (baseUrl api ++ "/api/games/latest");
       if negb (ok res) then mret JsNull else json res)
      (λ _e, mret JsNull).

(** ** The load effect *)

(** [loaded.board.length] once [Array.isArray(loaded.board)] holds. *)
Definition items (v : value) : list value :=
  match v with JsArray l => l | _ => [] end.

(** The test of line 154:
    [loaded && Array.isArray(loaded.board) && loaded.board.length === 9]. *)
Definition snapshot_accepted (loaded : value) : bool :=
  truthy loaded && isArray (prop loaded "board")
  && (length (items (prop loaded "board")) =? 9)%nat.

(** The object passed to [setGame] at lines 155-166. *)
Definition loadedGameState (now : string) (loaded : value) : GameState :=
  let nextPlayer :=
    if strict_eq (prop loaded "next_player") (JsString "O") then "O" else "X" in
  let derived := deriveStatus (items (prop loaded "board")) nextPlayer in
  {| board := items (prop loaded "board");
     nextPlayer := nextPlayer;
     status := Derived.status derived;
     winner := coalesce (prop loaded "winner") (Derived.winner derived);
     isDraw :=
       truthy (coalesce (prop loaded "is_draw") (JsBool (Derived.isDraw derived)));
     moves :=
       match prop loaded "moves" with
       | JsNumber x =>
           if PrimFloat.is_finite x then x
           else number_of_nat (Derived.moves derived)
       | _ => number_of_nat (Derived.moves derived)
       end;
     updatedAt :=
       if truthy (prop loaded "updated_at") then prop loaded "updated_at"
       else JsString now |}.

(** The two [useState] cells of [App]. *)
Record AppState : Type := mkAppState {
  game : GameState;
  apiStatus : string;
}.

Definition setGame (g : GameState) (st : AppState) : AppState :=
  {| game := g; apiStatus := apiStatus st |}.

Definition setApiStatus (s : string) (st : AppState) : AppState :=
  {| game := game st; apiStatus := s |}.

(** The initial content of the two cells. *)
Definition initialAppState (api : Api) (now : string) : AppState :=
  {| game := createEmptyGameState now;
     apiStatus := if enabled api then "Connecting…" else "Offline" |}.

(** [run] of the mount effect. [cancelled] is the flag as read after the
    [await]; the result is the content of the two cells afterwards. *)
Definition run (api : Api) (fetch : Fetch) (cancelled : bool) (now : string)
    (st : AppState) : outcome AppState :=
  if negb (enabled api) then mret st
  else
    loaded ← loadLatest api fetch;
    if cancelled then mret st
    else if snapshot_accepted loaded then
      mret (setApiStatus "Synced" (setGame (loadedGameState now loaded) st))
    else
      mret (setApiStatus "Online (no saved game)" st).

End App.

(** ** Reachable game states *)

(** The game states the component can hold: the initial one, and those a
    click, a reset or a run of the load effect lead to.  The load effect
    depends on [api], which every render rebuilds, so it may run again
    after any render.  [admits] restricts the snapshots the backend
    answers with.  A click comes from the button of a cell, so its index
    lies inside the board.  (The save effect writes [apiStatus] only.) *)
Inductive reachable (numberToString : float → string) (admits : value → Prop)
    (api : Api) : GameState → Prop :=
| reach_init now :
    reachable numberToString admits api (createEmptyGameState now)
| reach_click now g index :
    reachable numberToString admits api g →
    index < length (board g) →
    reachable numberToString admits api (handleSquareClick numberToString now g index)
| reach_reset now g :
    reachable numberToString admits api g →
    reachable numberToString admits api (handleReset now g)
| reach_load fetch cancelled now g s loaded st' :
    reachable numberToString admits api g →
    loadLatest api fetch = Returned loaded →
    admits loaded →
    run numberToString api fetch cancelled now {| game := g; apiStatus := s |}
      = Returned st' →
    reachable numberToString admits api (game st').

(** The invariant of the data model: [winner] and [isDraw] are not both
    set, both are what [deriveStatus] computes from the board, and [moves]
    counts the non-empty cells. *)
Definition game_invariant (numberToString : float → string) (g : GameState) : Prop :=
  let derived := deriveStatus numberToString (board g) (nextPlayer g) in
  (winner g = JsNull ∨ isDraw g = false)
  ∧ winner g = Derived.winner derived
  ∧ isDraw g = Derived.isDraw derived
  ∧ moves g = number_of_nat (length (List.filter truthy (board g))).

(** A snapshot whose [winner], [is_draw] and [moves] fields, where the load
    effect reads them rather than falling back on the derived value, agree
    with its board. *)
Definition snapshot_agrees (numberToString : float → string) (loaded : value) : Prop :=
  let derived := deriveStatus numberToString (items (prop loaded "board")) "X" in
  (nullish (prop loaded "winner") = true
   ∨ prop loaded "winner" = Derived.winner derived)
  ∧ (nullish (prop loaded "is_draw") = true
     ∨ truthy (prop loaded "is_draw") = Derived.isDraw derived)
  ∧ (isFinite (prop loaded "moves") = false
     ∨ prop loaded "moves" = JsNumber (number_of_nat (Derived.moves derived))).

(** The game states of the data model: nine cells, each empty or a mark,
    and X or O to move. *)
Definition well_formed (g : GameState) : Prop :=
  length (board g) = 9
  ∧ Forall (λ v, v = JsNull ∨ is_mark v) (board g)
  ∧ (nextPlayer g = "X" ∨ nextPlayer g = "O").

(** Three cells of a line all holding [m]. *)
Definition three_in_line (board : list value) (line : nat * nat * nat)
    (m : value) : Prop :=
  let '(a, b, c) := line in
  index board a = m ∧ index board b = m ∧ index board c = m.

(** The first index of a line. *)
Definition line_start (line : nat * nat * nat) : nat := line.1.1.

(** ** Saving *)

(** The network for the save call: what
    [fetch(url, {method: "POST", ..., body: JSON.stringify(body)})]
    resolves to, or the error it rejects with, given the URL and the object
    handed to [JSON.stringify]. *)
Definition FetchPost : Type := string → value → outcome Response.

(** The object literal [save] serialises (lines 117-123). *)
Definition saveBody (state : GameState) : value :=
  JsObject
    [ ("board", JsArray (board state));
      ("next_player", JsString (nextPlayer state));
      ("winner", winner state);
      ("is_draw", JsBool (isDraw state));
      ("moves", JsNumber (moves state)) ].

Definition save (api : Api) (fetch : FetchPost) (state : GameState)
  : outcome value :=
  if negb (enabled api) then mret JsNull
  else
    try_catch
      (res ← fetch (baseUrl api ++ "/api/games") (saveBody state);
       if negb (ok res) then mret JsNull else json res)
      (λ _e, mret JsNull).

(** The callback of the debounce timer (lines 188-192), run with the
    [game] its effect captured, on the content [st] of the cells when it
    starts. *)
Definition saveDebounced (api : Api) (fetch : FetchPost) (captured : GameState)
    (st : AppState) : outcome AppState :=
  let st1 := setApiStatus "Saving…" st in
  saved ← save api fetch captured;
  mret (setApiStatus (if truthy saved then "Synced" else "Offline") st1).

(** The timers of the page as the save effect sees them: the callbacks not
    yet run, each with the game it captured, the last identifier handed
    out ([setTimeout] returns fresh positive integers), and
    [saveDebounceRef.current] ([None] is the initial [null]). *)
Record Timers : Type := mkTimers {
  pending : gmap nat GameState;
  lastTimer : nat;
  saveDebounceRef : option nat;
}.

Definition noTimers : Timers :=
  {| pending := ∅; lastTimer := 0; saveDebounceRef := None |}.

(** [clearTimeout(id)]: nothing happens for an identifier that is not
    pending. *)
Definition clearTimeout (id : nat) (t : Timers) : Timers :=
  {| pending := delete id (pending t);
     lastTimer := lastTimer t;
     saveDebounceRef := saveDebounceRef t |}.

(** [setTimeout(callback, 450)] for the callback that captured [g]. *)
Definition setTimeout (g : GameState) (t : Timers) : nat * Timers :=
  let id := S (lastTimer t) in
  (id, {| pending := <[id := g]> (pending t);
          lastTimer := id;
          saveDebounceRef := saveDebounceRef t |}).

(** [if (saveDebounceRef.current) clearTimeout(saveDebounceRef.current)] *)
Definition clearSaveTimer (t : Timers) : Timers :=
  match saveDebounceRef t with
  | Some id => clearTimeout id t
  | None => t
  end.

(** The body of the save effect (lines 182-192), run for [game]. *)
Definition saveEffect (api : Api) (game : GameState) (t : Timers) : Timers :=
  if negb (enabled api) then t
  else
    let t1 := clearSaveTimer t in
    let '(id, t2) := setTimeout game t1 in
    {| pending := pending t2;
       lastTimer := lastTimer t2;
       saveDebounceRef := Some id |}.

(** The cleanup the effect returns (lines 194-196); a disabled client
    returns none. *)
Definition saveEffectCleanup (api : Api) (t : Timers) : Timers :=
  if negb (enabled api) then t else clearSaveTimer t.

(** A timer fires: its callback leaves the table and runs with the game it
    captured. *)
Definition timerFires (id : nat) (t : Timers) : option (GameState * Timers) :=
  match pending t !! id with
  | Some g => Some (g, clearTimeout id t)
  | None => None
  end.

(** The timer tables the component can produce: effect runs, cleanups and
    firings in any order. *)
Inductive timers_reachable (api : Api) : Timers → Prop :=
| timers_init : timers_reachable api noTimers
| timers_effect g t :
    timers_reachable api t → timers_reachable api (saveEffect api g t)
| timers_cleanup t :
    timers_reachable api t → timers_reachable api (saveEffectCleanup api t)
| timers_fire id g t t' :
    timers_reachable api t → timerFires id t = Some (g, t') →
    timers_reachable api t'.

(** ** The view *)

(** [disabled={!canPlay || Boolean(value)}] of the button of a cell. *)
Definition cellDisabled (game : GameState) (cell : value) : bool :=
  negb (canPlay game) || truthy cell.

(** [data-state] of the status pill (line 241). *)
Definition statusPillState (game : GameState) : string :=
  if truthy (winner game) then "winner"
  else if isDraw game then "draw"
  else "playing".

(** Which of the three help texts is rendered (lines 273-285), with the
    value it shows. *)
Inductive HelpText : Type :=
| HelpPlaying (player : string)
| HelpWins (who : value)
| HelpDraw.

Definition helpText (game : GameState) : HelpText :=
  if canPlay game then HelpPlaying (nextPlayer game)
  else if truthy (winner game) then HelpWins (winner game)
  else HelpDraw.

(** The text of the API pill (line 246). *)
Definition apiPillText (api : Api) (apiStatus : string) : string :=
  if enabled api then "API: " ++ apiStatus else "API: Disabled".

(** ** Measures used in the properties *)

(** A string of [n] slashes. *)
Fixpoint slashes (n : nat) : string :=
  match n with
  | 0 => EmptyString
  | S k => String "/"%char (slashes k)
  end.

(** The last character of a string. *)
Fixpoint last_char (s : string) : option ascii :=
  match s with
  | EmptyString => None
  | String c EmptyString => Some c
  | String _ rest => last_char rest
  end.

(** The number of cells holding the mark [m]. *)
Definition count_mark (m : string) (board : list value) : nat :=
  length (List.filter (λ v, strict_eq v (JsString m)) board).

(** The number of non-empty cells, [board.filter(Boolean).length]. *)
Definition count_filled (board : list value) : nat :=
  length (List.filter truthy board).

(** The mark of the player who is not to move. *)
Definition last_mover (g : GameState) : value :=
  JsString (if (nextPlayer g =? "X")%string then "O" else "X").

(** [g] with another [updatedAt]. *)
Definition with_updatedAt (u : value) (g : GameState) : GameState :=
  {| board := board g;
     nextPlayer := nextPlayer g;
     status := status g;
     winner := winner g;
     isDraw := isDraw g;
     moves := moves g;
     updatedAt := u |}.

(** The fields a loaded snapshot must share with what [save] posted. *)
Definition echoes_saved (g : GameState) (loaded : value) : Prop :=
  prop loaded "board" = JsArray (board g)
  ∧ prop loaded "next_player" = JsString (nextPlayer g)
  ∧ prop loaded "winner" = winner g
  ∧ prop loaded "is_draw" = JsBool (isDraw g)
  ∧ prop loaded "moves" = JsNumber (moves g).

(** The shape every state of the component has: nine cells, X or O to
    move, and the status text of [deriveStatus]. *)
Definition state_shape (numberToString : float → string) (g : GameState) : Prop :=
  length (board g) = 9
  ∧ (nextPlayer g = "X" ∨ nextPlayer g = "O")
  ∧ status g
    = Derived.status (deriveStatus numberToString (board g) (nextPlayer g)).

(** ** Sample inputs *)

(** The board with a row of X above a row of O. *)
Definition board_two_rows : list value :=
  [ markX; markX; markX;
    markO; markO; markO;
    JsNull; JsNull; JsNull ].

(** A board where only X completes a line. *)
Definition board_x_row : list value :=
  [ markX; markX; markX;
    markO; markO; JsNull;
    JsNull; JsNull; JsNull ].

(** A full board without a complete line. *)
Definition board_drawn : list value :=
  [ markX; markO; markX;
    markX; markO; markO;
    markO; markX; markX ].

(** The state after X has played cell 0. *)
Definition game_after_x0 : GameState :=
  handleSquareClick (λ _, ""%string) "t1" (createEmptyGameState "t0") 0.

(** A configured backend. *)
Definition api_local : Api :=
  {| enabled := true; baseUrl := "http://localhost:3001" |}.

(** A backend that cannot be reached. *)
Definition fetch_unreachable : Fetch :=
  λ _, Thrown (JsString "TypeError: Failed to fetch").

(** A backend that answers with the given snapshot. *)
Definition fetch_snapshot (snapshot : value) : Fetch :=
  λ _, Returned {| ok := true; json := Returned snapshot |}.

(** A saved game: X has played the centre, O is to move. *)
Definition snapshot_one_move : value :=
  JsObject
    [ ("board",
        JsArray [ JsNull; JsNull; JsNull;
                  JsNull; markX; JsNull;
                  JsNull; JsNull; JsNull ]);
      ("next_player", JsString "O");
      ("winner", JsNull);
      ("is_draw", JsBool false);
      ("moves", JsNumber 1) ].

(** A snapshot whose own fields contradict its empty board. *)
Definition snapshot_inconsistent : value :=
  JsObject
    [ ("board", JsArray (replicate 9 JsNull));
      ("next_player", JsString "X");
      ("winner", JsString "X");
      ("is_draw", JsBool true);
      ("moves", JsNumber 5) ].

(** A backend that refuses every save. *)
Definition post_refused : FetchPost :=
  λ _ _, Returned {| ok := false; json := Returned (JsString "error") |}.

(** A backend that stores what it is sent and answers with it. *)
Definition post_echo : FetchPost :=
  λ _ body, Returned {| ok := true; json := Returned body |}.

(** The drawn board as a game state. *)
Definition game_drawn : GameState :=
  {| board := board_drawn;
     nextPlayer := "O";
     status := "Draw";
     winner := JsNull;
     isDraw := true;
     moves := number_of_nat 9;
     updatedAt := JsString "t9" |}.

(** The finished game of the specification. *)
Definition game_top_row : GameState :=
  handleSquareClick (λ _, ""%string) "t5"
    (handleSquareClick (λ _, ""%string) "t4"
       (handleSquareClick (λ _, ""%string) "t3"
          (handleSquareClick (λ _, ""%string) "t2"
             (handleSquareClick (λ _, ""%string) "t1"
                (createEmptyGameState "t0") 0) 4) 1) 3) 2.

(** * Properties *)

Local Open Scope list_scope.
Local Open Scope nat_scope.

(** ** JavaScript values *)

Lemma strict_eq_string_l s w : strict_eq (JsString s) w = true → w = JsString s.
Proof.
  destruct w; simpl; try discriminate.
  intros H. apply String.eqb_eq in H. by subst.
Qed.

Lemma strict_eq_string_refl s : strict_eq (JsString s) (JsString s) = true.
Proof. simpl. apply String.eqb_refl. Qed.

Lemma is_mark_truthy m : is_mark m → truthy m = true.
Proof. by intros [-> | ->]. Qed.

Lemma is_mark_strict_eq m : is_mark m → strict_eq m m = true.
Proof. by intros [-> | ->]. Qed.

Lemma index_lookup (arr : list value) i v : arr !! i = Some v → index arr i = v.
Proof. unfold index. by intros ->. Qed.

Lemma index_outside (arr : list value) i :
  (length arr ≤ i)%nat → index arr i = JsUndefined.
Proof. intros H. unfold index. by rewrite lookup_ge_None_2. Qed.

(** Inside the array, assignment is the list update. *)
Lemma assign_insert (arr : list value) i v :
  i < length arr → assign arr i v = <[i := v]> arr.
Proof.
  revert i. induction arr as [| x arr IH]; intros [| i] H; simpl in *; try lia.
  - done.
  - f_equal. apply IH. lia.
Qed.

(** Outside, the array grows up to the index. *)
Lemma assign_grow (arr : list value) i v :
  (length arr ≤ i)%nat →
  assign arr i v = (arr ++ replicate (i - length arr) JsUndefined ++ [v])%list.
Proof.
  revert i. induction arr as [| x arr IH]; intros i H; simpl in *.
  - rewrite Nat.sub_0_r. clear H. induction i as [| i IHi]; simpl; [done |].
    by rewrite IHi.
  - destruct i as [| i]; [lia |]. simpl. f_equal. apply IH. lia.
Qed.

Lemma index_assign_eq (arr : list value) i v : index (assign arr i v) i = v.
Proof.
  revert arr. induction i as [| i IH]; intros [| x arr]; simpl; try done.
  - apply (IH []).
  - apply IH.
Qed.

Lemma index_assign_ne (arr : list value) i j v :
  i ≠ j → index (assign arr i v) j = index arr j.
Proof.
  unfold index. revert arr j.
  induction i as [| i IH]; intros [| x arr] [| j] H; simpl; try done.
  - rewrite (IH [] j); [done | lia].
  - apply IH. lia.
Qed.

(** ** The evaluator *)

Lemma line_holds_unfold board a b c :
  line_holds board (a, b, c)
  = truthy (index board a) && strict_eq (index board a) (index board b)
    && strict_eq (index board a) (index board c).
Proof. reflexivity. Qed.

(** What the loop computes on any list of triples: the value at the first
    triple that passes the test, [null] when none does. *)
Lemma calculateWinner_loop_first board todo :
  (∃ before line after,
      todo = before ++ line :: after
      ∧ Forall (λ l, line_holds board l = false) before
      ∧ line_holds board line = true
      ∧ calculateWinner_loop board todo = index board (line_start line))
  ∨ (Forall (λ l, line_holds board l = false) todo
     ∧ calculateWinner_loop board todo = JsNull).
Proof.
  induction todo as [| [[a b] c] todo IH]; [right; by split |].
  simpl. rewrite <- line_holds_unfold.
  destruct (line_holds board (a, b, c)) eqn:Hl.
  - left. exists [], (a, b, c), todo. by repeat split.
  - destruct IH as [(before & line & after & -> & Hb & Hh & Hr) | [Hn Hr]].
    + left. exists ((a, b, c) :: before), line, after.
      repeat split; [by constructor | done | done].
    + right. split; [by constructor | done].
Qed.

(** The result is [null] or non-empty. *)
Lemma calculateWinner_null_or_truthy board :
  calculateWinner board = JsNull ∨ truthy (calculateWinner board) = true.
Proof.
  destruct (calculateWinner_loop_first board lines)
    as [(before & [[a b] c] & after & _ & _ & Hh & Hr) | [_ Hr]]; [right | by left].
  unfold calculateWinner. rewrite Hr. rewrite line_holds_unfold in Hh.
  unfold line_start. simpl. by destruct (truthy (index board a)).
Qed.

(** A line of three marks passes the test of the loop. *)
Lemma three_marks_line_holds board line m :
  is_mark m → three_in_line board line m → line_holds board line = true.
Proof.
  destruct line as [[a b] c]. intros Hm (Ha & Hb & Hc).
  rewrite line_holds_unfold, Ha, Hb, Hc.
  by rewrite is_mark_truthy, is_mark_strict_eq.
Qed.

(** On string cells the test of the loop is equality of the three cells. *)
Lemma line_holds_string board line s :
  index board (line_start line) = JsString s →
  line_holds board line = true →
  three_in_line board line (JsString s).
Proof.
  destruct line as [[a b] c]. unfold line_start. simpl. intros Ha.
  rewrite Ha. intros H.
  apply andb_prop in H as [H Hc]. apply andb_prop in H as [_ Hb].
  by rewrite (strict_eq_string_l _ _ Hb), (strict_eq_string_l _ _ Hc).
Qed.

(** On a board whose cells are empty or marks, a line passes the test of
    the loop exactly when its three cells hold the same mark. *)
Lemma line_holds_iff_marks (board : list value) line :
  Forall (λ v, v = JsNull ∨ is_mark v) board →
  line_holds board line = true ↔ ∃ m, is_mark m ∧ three_in_line board line m.
Proof.
  intros Hwf. split.
  - intros Hh.
    assert (truthy (index board (line_start line)) = true) as Ht.
    { destruct line as [[a b] c]. rewrite line_holds_unfold in Hh.
      unfold line_start. simpl. by destruct (truthy (index board a)). }
    assert (is_mark (index board (line_start line))) as Hm.
    { unfold index in *. destruct (board !! line_start line) as [v |] eqn:Hv.
      - rewrite Forall_forall in Hwf.
        destruct (Hwf v) as [-> | Hm]; [| discriminate Ht | exact Hm].
        apply list_elem_of_lookup. by exists (line_start line).
      - discriminate Ht. }
    exists (index board (line_start line)). split; [done |].
    destruct Hm as [Hm | Hm]; rewrite Hm; by apply line_holds_string.
  - intros (m & Hm & H3). by apply (three_marks_line_holds _ _ m).
Qed.

(** C7. [calculateWinner] goes through the eight triples rows, columns,
    diagonals in this order, and returns the cell value of the first triple
    whose three cells pass the test "non-empty and all three equal", or
    [null] when no triple passes.  On a board of marks and empty cells the
    test is: the three cells hold the same mark. *)
Theorem calculateWinner_first_matching_line :
  lines = [ (0, 1, 2); (3, 4, 5); (6, 7, 8);
            (0, 3, 6); (1, 4, 7); (2, 5, 8);
            (0, 4, 8); (2, 4, 6) ]
  ∧ (∀ board : list value,
       (∃ before line after,
           lines = before ++ line :: after
           ∧ Forall (λ l, line_holds board l = false) before
           ∧ line_holds board line = true
           ∧ calculateWinner board = index board (line_start line))
       ∨ (Forall (λ l, line_holds board l = false) lines
          ∧ calculateWinner board = JsNull))
  ∧ (∀ (board : list value) line,
       Forall (λ v, v = JsNull ∨ is_mark v) board →
       line_holds board line = true
       ↔ ∃ m, is_mark m ∧ three_in_line board line m).
Proof.
  split; [reflexivity |]. split.
  - intros board. apply calculateWinner_loop_first.
  - apply line_holds_iff_marks.
Qed.

Lemma calculateWinner_first_matching_line_witness :
  calculateWinner (replicate 9 JsNull) = JsNull
  ∧ line_holds board_x_row (0, 1, 2) = true.
Proof.
  destruct calculateWinner_first_matching_line as (_ & Hfirst & Hmarks).
  split.
  - destruct (Hfirst (replicate 9 JsNull))
      as [(before & [[a b] c] & after & _ & _ & Hh & _) | [_ Hr]]; [| exact Hr].
    rewrite line_holds_unfold in Hh.
    by destruct a as [| [| [| [| [| [| [| [| [| a]]]]]]]]].
  - apply (Hmarks board_x_row (0, 1, 2)).
    + unfold board_x_row, is_mark.
      repeat (apply List.Forall_cons; [auto |]). apply List.Forall_nil.
    + exists markX. split; [by left | by repeat split].
Defined.

(** Some line passes the test: the result is the value of the first one. *)
Lemma calculateWinner_some_line board line :
  line ∈ lines → line_holds board line = true →
  ∃ before l after,
    lines = before ++ l :: after
    ∧ Forall (λ l', line_holds board l' = false) before
    ∧ line_holds board l = true
    ∧ calculateWinner board = index board (line_start l).
Proof.
  intros Hin Hh.
  destruct (calculateWinner_loop_first board lines) as [H | [Hn _]]; [done |].
  rewrite Forall_forall in Hn. specialize (Hn _ Hin). congruence.
Qed.

(** C1, as stated, fails: on a board with a row of X and a row of O the
    second row holds three O, and the evaluator returns X. *)
Lemma calculateWinner_other_line_counterexample :
  ¬ (∀ (board : list value) line m,
        length board = 9 → line ∈ lines → is_mark m →
        three_in_line board line m →
        calculateWinner board = m).
Proof.
  intros H.
  specialize (H board_two_rows (3, 4, 5) markO).
  assert (calculateWinner board_two_rows = markO) as Hw.
  { apply H; [reflexivity | | by right | by repeat split].
    unfold lines. repeat constructor. }
  vm_compute in Hw. discriminate Hw.
Qed.

(** C1, amended. On a board where some line holds three equal marks, the
    evaluator returns the value of the first line in the fixed order that
    passes its test (so never [null]); this is the mark [m] of the given
    line whenever every line that passes the test holds [m]. *)
Theorem calculateWinner_line_mark (board : list value) line m :
  line ∈ lines → is_mark m → three_in_line board line m →
  (∃ before l after,
      lines = before ++ l :: after
      ∧ Forall (λ l', line_holds board l' = false) before
      ∧ line_holds board l = true
      ∧ calculateWinner board = index board (line_start l))
  ∧ ((∀ l, l ∈ lines → line_holds board l = true →
           index board (line_start l) = m) →
     calculateWinner board = m).
Proof.
  intros Hin Hm H3.
  pose proof (three_marks_line_holds _ _ _ Hm H3) as Hh.
  destruct (calculateWinner_some_line _ _ Hin Hh)
    as (before & l & after & Hl & Hb & Hlh & Hr).
  split; [by exists before, l, after |].
  intros Hall. rewrite Hr. apply Hall; [| done].
  rewrite Hl. apply elem_of_app. right. apply list_elem_of_here.
Qed.

Lemma calculateWinner_line_mark_witness :
  calculateWinner board_x_row = markX.
Proof.
  apply (calculateWinner_line_mark board_x_row (0, 1, 2) markX).
  - unfold lines. apply list_elem_of_here.
  - left. reflexivity.
  - repeat split.
  - intros l Hl Hh. unfold lines in Hl.
    repeat (apply elem_of_cons in Hl as [-> | Hl]);
      try reflexivity; try discriminate Hh.
    by apply elem_of_nil in Hl.
Defined.

(** ** The derived fields *)

Lemma deriveStatus_winner numberToString board np :
  Derived.winner (deriveStatus numberToString board np) = calculateWinner board.
Proof.
  unfold deriveStatus.
  destruct (calculateWinner_null_or_truthy board) as [H | H]; rewrite H; simpl.
  - by destruct (_ =? 9).
  - done.
Qed.

Lemma deriveStatus_isDraw numberToString board np :
  Derived.isDraw (deriveStatus numberToString board np)
  = negb (truthy (calculateWinner board))
    && (length (List.filter truthy board) =? 9).
Proof.
  unfold deriveStatus.
  destruct (truthy (calculateWinner board)); simpl; [done |].
  by destruct (_ =? 9).
Qed.

Lemma deriveStatus_moves numberToString board np :
  Derived.moves (deriveStatus numberToString board np)
  = length (List.filter truthy board).
Proof.
  unfold deriveStatus.
  destruct (truthy (calculateWinner board)); simpl; [done |].
  by destruct (_ =? 9).
Qed.

(** [deriveStatus] never reports a winner and a draw together. *)
Lemma deriveStatus_exclusive numberToString board np :
  Derived.winner (deriveStatus numberToString board np) = JsNull
  ∨ Derived.isDraw (deriveStatus numberToString board np) = false.
Proof.
  rewrite deriveStatus_winner, deriveStatus_isDraw.
  destruct (calculateWinner_null_or_truthy board) as [H | H]; [by left |].
  right. by rewrite H.
Qed.

(** [filter(Boolean)] keeps a board without empty cells whole. *)
Lemma filter_truthy_full (board : list value) :
  Forall (λ v, truthy v = true) board → List.filter truthy board = board.
Proof.
  induction 1 as [| v board Hv _ IH]; simpl; [done |].
  by rewrite Hv, IH.
Qed.

(** C4. On a board of nine non-empty cells where [calculateWinner] returns
    [null], [deriveStatus] reports a draw: [isDraw] is true, [winner] is
    [null] and the status reads "Draw". *)
Theorem deriveStatus_full_board_draw numberToString (board : list value) np :
  length board = 9 →
  Forall (λ v, truthy v = true) board →
  calculateWinner board = JsNull →
  Derived.isDraw (deriveStatus numberToString board np) = true
  ∧ Derived.winner (deriveStatus numberToString board np) = JsNull
  ∧ Derived.status (deriveStatus numberToString board np) = "Draw"%string.
Proof.
  intros Hlen Hfull Hnone. unfold deriveStatus.
  rewrite Hnone, (filter_truthy_full _ Hfull), Hlen. by simpl.
Qed.

Lemma deriveStatus_full_board_draw_witness :
  Derived.isDraw (deriveStatus (λ _, ""%string) board_drawn "O") = true
  ∧ Derived.winner (deriveStatus (λ _, ""%string) board_drawn "O") = JsNull
  ∧ Derived.status (deriveStatus (λ _, ""%string) board_drawn "O") = "Draw"%string.
Proof.
  apply (deriveStatus_full_board_draw (λ _, ""%string) board_drawn "O").
  - reflexivity.
  - unfold board_drawn. repeat constructor.
  - reflexivity.
Defined.

(** ** The click handler *)

(** C2. A click on an occupied cell, or on any cell once the state has a
    winner or is a draw, leaves the whole game state as it was.  The
    handler has no statement that can throw, so it is a total function of
    the state and the index. *)
Theorem handleSquareClick_ignored numberToString now (game : GameState)
    (index : nat) :
  truthy (Js.index (board game) index) = true
  ∨ truthy (winner game) = true
  ∨ isDraw game = true →
  handleSquareClick numberToString now game index = game.
Proof.
  intros H. unfold handleSquareClick, canPlay.
  destruct (truthy (winner game)) eqn:Hw; simpl; [done |].
  destruct (isDraw game) eqn:Hd; simpl; [done |].
  destruct H as [-> | [H | H]]; done.
Qed.

Lemma handleSquareClick_ignored_witness :
  handleSquareClick (λ _, ""%string) "t2" game_after_x0 0 = game_after_x0.
Proof.
  apply (handleSquareClick_ignored (λ _, ""%string) "t2" game_after_x0 0).
  left. reflexivity.
Defined.

(** C3. A click on an empty cell of a state without winner or draw puts
    the mark of [nextPlayer] in that cell, hands the turn to the other
    player, and takes [winner], [isDraw], [moves] and [status] from
    [deriveStatus] on the new board and the new turn. *)
Theorem handleSquareClick_valid_move numberToString now (game : GameState)
    (index : nat) :
  truthy (winner game) = false →
  isDraw game = false →
  index < length (board game) →
  truthy (Js.index (board game) index) = false →
  let game' := handleSquareClick numberToString now game index in
  let derived := deriveStatus numberToString (board game') (nextPlayer game') in
  board game' = <[index := JsString (nextPlayer game)]> (board game)
  ∧ (nextPlayer game = "X"%string → nextPlayer game' = "O"%string)
  ∧ (nextPlayer game = "O"%string → nextPlayer game' = "X"%string)
  ∧ winner game' = Derived.winner derived
  ∧ isDraw game' = Derived.isDraw derived
  ∧ moves game' = number_of_nat (Derived.moves derived)
  ∧ status game' = Derived.status derived.
Proof.
  intros Hw Hd Hi He. unfold handleSquareClick, canPlay.
  rewrite Hw, Hd, He. simpl.
  rewrite (assign_insert _ _ _ Hi).
  repeat split; by intros ->.
Qed.

Lemma handleSquareClick_valid_move_witness :
  let game' := handleSquareClick (λ _, ""%string) "t2" game_after_x0 4 in
  board game' = <[4 := markO]> (board game_after_x0)
  ∧ nextPlayer game' = "X"%string
  ∧ moves game' = number_of_nat 2.
Proof.
  assert (4 < length (board game_after_x0)) as Hi by (vm_compute; lia).
  pose proof (handleSquareClick_valid_move (λ _, ""%string) "t2" game_after_x0 4
                eq_refl eq_refl Hi eq_refl) as H.
  cbv zeta in H. destruct H as (Hb & _ & Hn & _ & _ & Hm & _).
  intros game'. split; [exact Hb | split; [by apply Hn | exact Hm]].
Defined.

(** A click outside the board of a playable state grows the array: the new
    cell holds the mark, the cells in between read [undefined]. *)
Lemma handleSquareClick_outside numberToString now (game : GameState)
    (index : nat) :
  canPlay game = true →
  length (board game) ≤ index →
  board (handleSquareClick numberToString now game index)
  = board game
    ++ replicate (index - length (board game)) JsUndefined
    ++ [JsString (nextPlayer game)].
Proof.
  intros Hc Hi. unfold handleSquareClick. rewrite Hc.
  rewrite (index_outside _ _ Hi). simpl. by apply assign_grow.
Qed.

(** ** Reset *)

(** C5. From any state, [handleReset] yields nine empty cells, X to move,
    no winner, no draw, no move made, and the status "Next player: X". *)
Theorem handleReset_fresh now (game : GameState) :
  board (handleReset now game)
  = [JsNull; JsNull; JsNull; JsNull; JsNull; JsNull; JsNull; JsNull; JsNull]
  ∧ nextPlayer (handleReset now game) = "X"%string
  ∧ winner (handleReset now game) = JsNull
  ∧ isDraw (handleReset now game) = false
  ∧ moves (handleReset now game) = number_of_nat 0
  ∧ status (handleReset now game) = "Next player: X"%string.
Proof. by repeat split. Qed.

(** ** The backend client *)

Lemma stripTrailingSlashes_empty : stripTrailingSlashes "" = ""%string.
Proof. reflexivity. Qed.

(** With neither variable set, the client is disabled. *)
Lemma useOptionalGameApi_unset :
  enabled (useOptionalGameApi
             {| REACT_APP_BACKEND_URL := None; REACT_APP_API_BASE := None |})
  = false.
Proof. reflexivity. Qed.

(** C8. [loadLatest] always returns and never throws; it returns [null]
    when the client is disabled, when [fetch] throws, when the response is
    not [ok], and when reading the body as JSON throws. *)
Theorem loadLatest_failures_return_null (api : Api) (fetch : Fetch) :
  (∃ v, loadLatest api fetch = Returned v)
  ∧ (enabled api = false → loadLatest api fetch = Returned JsNull)
  ∧ (∀ e, fetch (baseUrl api ++ "/api/games/latest")%string = Thrown e →
          loadLatest api fetch = Returned JsNull)
  ∧ (∀ res, fetch (baseUrl api ++ "/api/games/latest")%string = Returned res →
            ok res = false →
            loadLatest api fetch = Returned JsNull)
  ∧ (∀ res e, fetch (baseUrl api ++ "/api/games/latest")%string = Returned res →
              json res = Thrown e →
              loadLatest api fetch = Returned JsNull).
Proof.
  unfold loadLatest.
  destruct (enabled api); simpl.
  - destruct (fetch _) as [res | e] eqn:Hf; simpl.
    + destruct (ok res) eqn:Hok; simpl.
      * destruct (json res) as [v | e] eqn:Hj; simpl.
        -- split; [by exists v |]. repeat split; try done.
           ++ intros res' [= <-]. congruence.
           ++ intros res' e' [= <-]. congruence.
        -- split; [by exists JsNull |]. by repeat split.
      * split; [by exists JsNull |]. by repeat split.
    + split; [by exists JsNull |]. by repeat split.
  - split; [by exists JsNull |]. by repeat split.
Qed.

Lemma loadLatest_failures_return_null_witness :
  loadLatest {| enabled := true; baseUrl := "http://localhost:3001" |}
    fetch_unreachable
  = Returned JsNull.
Proof.
  destruct (loadLatest_failures_return_null
              {| enabled := true; baseUrl := "http://localhost:3001" |}
              fetch_unreachable) as (_ & _ & H & _).
  apply (H (JsString "TypeError: Failed to fetch")). reflexivity.
Defined.

(** ** The load effect *)

Lemma strict_eq_string_r w s : strict_eq w (JsString s) = true ↔ w = JsString s.
Proof.
  split.
  - destruct w; simpl; try discriminate.
    intros H. apply String.eqb_eq in H. by subst.
  - intros ->. apply strict_eq_string_refl.
Qed.

(** The test of the load effect, spelled out. *)
Lemma snapshot_accepted_iff loaded :
  snapshot_accepted loaded = true
  ↔ ∃ cells, prop loaded "board" = JsArray cells ∧ length cells = 9.
Proof.
  unfold snapshot_accepted. split.
  - intros H. apply andb_prop in H as [H Hlen]. apply andb_prop in H as [_ Harr].
    destruct (prop loaded "board") as [| | | | | cells |]; try discriminate.
    exists cells. split; [done |]. by apply Nat.eqb_eq.
  - intros (cells & Hb & Hlen).
    destruct loaded; try discriminate Hb.
    rewrite Hb. simpl. by rewrite Hlen.
Qed.

(** A disabled client answers [null] without calling [fetch]. *)
Lemma loadLatest_disabled api fetch :
  enabled api = false → loadLatest api fetch = Returned JsNull.
Proof. intros He. unfold loadLatest. by rewrite He. Qed.

(** What [run] leaves in the two cells, case by case. *)
Lemma run_cases numberToString api fetch cancelled now st loaded :
  enabled api = true →
  loadLatest api fetch = Returned loaded →
  run numberToString api fetch cancelled now st
  = Returned
      (if cancelled then st
       else if snapshot_accepted loaded
            then {| game := loadedGameState numberToString now loaded;
                    apiStatus := "Synced" |}
            else {| game := game st; apiStatus := "Online (no saved game)" |}).
Proof.
  intros He Hl. unfold run. rewrite He, Hl. simpl.
  destruct cancelled; [done |]. by destruct (snapshot_accepted loaded).
Qed.

Lemma run_disabled numberToString api fetch cancelled now st :
  enabled api = false →
  run numberToString api fetch cancelled now st = Returned st.
Proof. intros He. unfold run. by rewrite He. Qed.

(** An accepted snapshot can only come from an enabled client. *)
Lemma snapshot_accepted_enabled api fetch loaded :
  loadLatest api fetch = Returned loaded →
  snapshot_accepted loaded = true →
  enabled api = true.
Proof.
  intros Hl Ha. destruct (enabled api) eqn:He; [done |].
  rewrite (loadLatest_disabled _ _ He) in Hl. injection Hl as <-.
  discriminate Ha.
Qed.

(** C9. The load effect replaces the game with the snapshot when the
    snapshot's [board] is an array of nine cells (and the effect was not
    cancelled); for every other loaded value the game is left as it was. *)
Theorem run_replaces_game_only_for_nine_cells numberToString (api : Api)
    (fetch : Fetch) now (st : AppState) (loaded : value) :
  loadLatest api fetch = Returned loaded →
  (∀ cells, prop loaded "board" = JsArray cells → length cells = 9 →
     ∃ st', run numberToString api fetch false now st = Returned st'
            ∧ game st' = loadedGameState numberToString now loaded
            ∧ board (game st') = cells)
  ∧ ((¬ ∃ cells, prop loaded "board" = JsArray cells ∧ length cells = 9) →
     ∀ cancelled,
       ∃ st', run numberToString api fetch cancelled now st = Returned st'
              ∧ game st' = game st).
Proof.
  intros Hl. split.
  - intros cells Hb Hlen.
    assert (snapshot_accepted loaded = true) as Ha.
    { apply snapshot_accepted_iff. by exists cells. }
    pose proof (snapshot_accepted_enabled _ _ _ Hl Ha) as He.
    rewrite (run_cases _ _ _ _ _ _ _ He Hl), Ha.
    eexists. split; [reflexivity |]. split; [done |]. simpl. by rewrite Hb.
  - intros Hno cancelled.
    assert (snapshot_accepted loaded = false) as Ha.
    { destruct (snapshot_accepted loaded) eqn:Ha; [| done].
      by apply snapshot_accepted_iff in Ha. }
    destruct (enabled api) eqn:He.
    + rewrite (run_cases _ _ _ _ _ _ _ He Hl), Ha.
      eexists. split; [reflexivity |]. by destruct cancelled.
    + rewrite (run_disabled _ _ _ _ _ _ He). by eexists.
Qed.

Lemma run_replaces_game_only_for_nine_cells_witness :
  ∃ st',
    run (λ _, ""%string) api_local (fetch_snapshot snapshot_one_move) false "t1"
      (initialAppState api_local "t0")
    = Returned st'
    ∧ board (game st')
      = [ JsNull; JsNull; JsNull; JsNull; markX; JsNull; JsNull; JsNull; JsNull ].
Proof.
  destruct (run_replaces_game_only_for_nine_cells (λ _, ""%string) api_local
              (fetch_snapshot snapshot_one_move) "t1"
              (initialAppState api_local "t0") snapshot_one_move
              eq_refl) as [H _].
  destruct (H _ eq_refl eq_refl) as (st' & Hr & _ & Hb).
  exists st'. by split.
Defined.

(** C10. Once a snapshot is applied, the turn is O's exactly when the
    snapshot's [next_player] is the string "O", and X's for any other
    value of the field, a missing field included. *)
Theorem run_loaded_nextPlayer numberToString (api : Api) (fetch : Fetch) now
    (st : AppState) (loaded : value) :
  loadLatest api fetch = Returned loaded →
  snapshot_accepted loaded = true →
  ∃ st', run numberToString api fetch false now st = Returned st'
         ∧ game st' = loadedGameState numberToString now loaded
         ∧ (nextPlayer (game st') = "O"%string
            ↔ prop loaded "next_player" = JsString "O")
         ∧ (nextPlayer (game st') = "X"%string
            ↔ prop loaded "next_player" ≠ JsString "O").
Proof.
  intros Hl Ha. pose proof (snapshot_accepted_enabled _ _ _ Hl Ha) as He.
  rewrite (run_cases _ _ _ _ _ _ _ He Hl), Ha.
  eexists. split; [reflexivity |]. split; [done |]. simpl.
  destruct (strict_eq (prop loaded "next_player") (JsString "O")) eqn:Hs.
  - apply strict_eq_string_r in Hs. by split; split.
  - assert (prop loaded "next_player" ≠ JsString "O") as Hne.
    { intros Heq. apply strict_eq_string_r in Heq. congruence. }
    by split; split.
Qed.

Lemma run_loaded_nextPlayer_witness :
  ∃ st',
    run (λ _, ""%string) api_local (fetch_snapshot snapshot_one_move) false "t1"
      (initialAppState api_local "t0")
    = Returned st'
    ∧ nextPlayer (game st') = "O"%string.
Proof.
  destruct (run_loaded_nextPlayer (λ _, ""%string) api_local
              (fetch_snapshot snapshot_one_move) "t1"
              (initialAppState api_local "t0") snapshot_one_move
              eq_refl eq_refl) as (st' & Hr & _ & [_ Ho] & _).
  exists st'. split; [exact Hr |]. apply Ho. reflexivity.
Defined.

(** ** The invariant of the game state *)

Lemma createEmptyGameState_invariant numberToString now :
  game_invariant numberToString (createEmptyGameState now).
Proof. unfold game_invariant. simpl. repeat split. by left. Qed.

(** An accepted click stores exactly what [deriveStatus] computes. *)
Lemma handleSquareClick_invariant numberToString now g index :
  game_invariant numberToString g →
  game_invariant numberToString (handleSquareClick numberToString now g index).
Proof.
  intros Hg. unfold handleSquareClick.
  destruct (negb (canPlay g)); [done |].
  destruct (truthy (Js.index (board g) index)); [done |].
  unfold game_invariant. simpl.
  repeat split.
  - apply deriveStatus_exclusive.
  - by rewrite deriveStatus_moves.
Qed.

(** A snapshot that agrees with its board loads into a state that
    satisfies the invariant. *)
Lemma loadedGameState_invariant numberToString now loaded :
  snapshot_agrees numberToString loaded →
  game_invariant numberToString (loadedGameState numberToString now loaded).
Proof.
  intros (Hw & Hd & Hm). unfold game_invariant. simpl.
  set (cells := items (prop loaded "board")) in *.
  set (np := if strict_eq _ _ then _ else _).
  rewrite deriveStatus_winner, deriveStatus_isDraw, deriveStatus_moves in *.
  assert (coalesce (prop loaded "winner") (calculateWinner cells)
          = calculateWinner cells) as Ew.
  { unfold coalesce. destruct Hw as [-> | Hw]; [done |].
    rewrite Hw. by destruct (nullish (calculateWinner cells)). }
  assert (truthy (coalesce (prop loaded "is_draw")
                    (JsBool (negb (truthy (calculateWinner cells))
                             && (length (List.filter truthy cells) =? 9))))
          = negb (truthy (calculateWinner cells))
            && (length (List.filter truthy cells) =? 9)) as Ed.
  { unfold coalesce. destruct Hd as [-> | Hd]; [done |].
    destruct (nullish (prop loaded "is_draw")); [done | exact Hd]. }
  rewrite Ew, Ed. repeat split.
  - destruct (calculateWinner_null_or_truthy cells) as [H | H]; [by left |].
    right. by rewrite H.
  - destruct Hm as [Hm | Hm].
    + destruct (prop loaded "moves"); try done. simpl in Hm. by rewrite Hm.
    + rewrite Hm. by destruct (PrimFloat.is_finite _).
Qed.

(** C6, as stated, fails: the load effect stores the snapshot's own
    [winner], [is_draw] and [moves] when it has them, whatever its board
    says.  After loading [snapshot_inconsistent] the board is empty while
    the state holds winner "X", a draw, and five moves. *)
Lemma reachable_invariant_counterexample :
  ¬ (∀ numberToString api g,
        reachable numberToString (λ _, True) api g →
        game_invariant numberToString g).
Proof.
  intros H.
  assert (reachable (λ _, ""%string) (λ _, True) api_local
            (game {| game := loadedGameState (λ _, ""%string) "t1"
                               snapshot_inconsistent;
                     apiStatus := "Synced" |})) as Hr.
  { apply (reach_load _ _ _ (fetch_snapshot snapshot_inconsistent) false "t1"
             (createEmptyGameState "t0") "Connecting…"%string
             snapshot_inconsistent).
    - apply reach_init.
    - reflexivity.
    - exact I.
    - reflexivity. }
  apply H in Hr. destruct Hr as ([Hw | Hd] & _); discriminate.
Qed.

(** C6, amended. Every state reached from the initial one by clicks,
    resets and loads of snapshots that agree with their board (each of
    [winner], [is_draw], [moves] absent, or equal to what the board gives)
    satisfies the invariant: [winner] and [isDraw] are not both set, both
    are what [deriveStatus] computes from the board, and [moves] counts the
    non-empty cells. *)
Theorem reachable_invariant numberToString (api : Api) (g : GameState) :
  reachable numberToString (snapshot_agrees numberToString) api g →
  game_invariant numberToString g.
Proof.
  induction 1 as [now | now g index _ IH _ | now g _ _
                  | fetch cancelled now g s loaded st' _ IH Hl Hagree Hrun].
  - apply createEmptyGameState_invariant.
  - by apply handleSquareClick_invariant.
  - apply createEmptyGameState_invariant.
  - destruct (enabled api) eqn:He.
    + rewrite (run_cases _ _ _ _ _ _ _ He Hl) in Hrun.
      injection Hrun as <-.
      destruct cancelled; [done |].
      destruct (snapshot_accepted loaded); [| done].
      by apply loadedGameState_invariant.
    + rewrite (run_disabled _ _ _ _ _ _ He) in Hrun. by injection Hrun as <-.
Qed.

Lemma reachable_invariant_witness :
  game_invariant (λ _, ""%string)
    (game {| game := loadedGameState (λ _, ""%string) "t1" snapshot_one_move;
             apiStatus := "Synced" |}).
Proof.
  apply (reachable_invariant (λ _, ""%string) api_local).
  apply (reach_load _ _ _ (fetch_snapshot snapshot_one_move) false "t1"
           (createEmptyGameState "t0") "Connecting…"%string snapshot_one_move).
  - apply reach_init.
  - reflexivity.
  - unfold snapshot_agrees. split; [by right |]. split; by right.
  - reflexivity.
Defined.

(** ** Local play *)

(** Without a backend answer, play stays inside the data model. *)
Lemma local_play_well_formed numberToString (api : Api) (g : GameState) :
  reachable numberToString (λ _, False) api g → well_formed g.
Proof.
  induction 1 as [now | now g index _ IH Hi | now g _ _
                  | fetch cancelled now g s loaded st' _ _ _ [] _].
  - split; [done |]. split; [| by left].
    simpl. repeat (apply List.Forall_cons; [by left |]). apply List.Forall_nil.
  - destruct IH as (Hlen & Hcells & Hnp). unfold handleSquareClick.
    destruct (negb (canPlay g)); [done |].
    destruct (truthy (Js.index (board g) index)); [done |].
    unfold well_formed. simpl. rewrite (assign_insert _ _ _ Hi).
    split; [by rewrite length_insert |]. split.
    + apply Forall_insert; [done |]. right.
      destruct Hnp as [-> | ->]; [by left | by right].
    + destruct Hnp as [-> | ->]; [by right | by left].
  - split; [done |]. split; [| by left].
    simpl. repeat (apply List.Forall_cons; [by left |]). apply List.Forall_nil.
Qed.

(** The game of the specification: X takes the top row in five moves. *)
Example top_row_game numberToString :
  let final :=
    foldl (handleSquareClick numberToString "t")
      (createEmptyGameState "t0") [0; 4; 1; 3; 2] in
  board final
  = [ markX; markX; markX; markO; markO; JsNull; JsNull; JsNull; JsNull ]
  ∧ winner final = markX
  ∧ isDraw final = false
  ∧ status final = "Winner: X"%string.
Proof. by repeat split. Qed.

(** * Further properties *)

(** ** The base URL *)

Lemma stripTrailingSlashes_slashes n : stripTrailingSlashes (slashes n) = ""%string.
Proof. induction n as [| n IH]; simpl; [done |]. by rewrite IH. Qed.

Lemma stripTrailingSlashes_decompose raw :
  (∃ n, raw = (stripTrailingSlashes raw ++ slashes n)%string)
  ∧ last_char (stripTrailingSlashes raw) ≠ Some "/"%char.
Proof.
  induction raw as [| c rest [[n Hn] Hlast]]; simpl.
  - split; [by exists 0 | done].
  - destruct (Ascii.eqb c "/") eqn:Hc; simpl.
    + apply Ascii.eqb_eq in Hc. subst c.
      destruct (stripTrailingSlashes rest) as [| c' rest'] eqn:Hs; simpl.
      * split; [| done]. exists (S n). simpl. by rewrite Hn at 1.
      * split; [exists n; simpl; by rewrite Hn at 1 |]. exact Hlast.
    + apply Ascii.eqb_neq in Hc.
      split; [exists n; simpl; by rewrite Hn at 1 |].
      destruct (stripTrailingSlashes rest) as [| c' rest'] eqn:Hs.
      * simpl. congruence.
      * exact Hlast.
Qed.

Lemma stripTrailingSlashes_fixed s :
  last_char s ≠ Some "/"%char → stripTrailingSlashes s = s.
Proof.
  induction s as [| c rest IH]; [done |]. intros Hlast. simpl.
  destruct rest as [| c' rest'].
  - simpl in *. destruct (Ascii.eqb c "/") eqn:Hc; [| done].
    apply Ascii.eqb_eq in Hc. congruence.
  - rewrite IH by exact Hlast.
    destruct (Ascii.eqb c "/"); simpl; done.
Qed.

(** X1. [raw.replace(/\/+$/, "")] cuts exactly the trailing slashes: the
    input is the result followed by slashes only, the result does not end
    in a slash, cutting twice changes nothing more, and the result is
    empty exactly for an input made of slashes only. *)
Theorem stripTrailingSlashes_cuts_trailing_run (raw : string) :
  (∃ n, raw = (stripTrailingSlashes raw ++ slashes n)%string)
  ∧ last_char (stripTrailingSlashes raw) ≠ Some "/"%char
  ∧ stripTrailingSlashes (stripTrailingSlashes raw) = stripTrailingSlashes raw
  ∧ (stripTrailingSlashes raw = ""%string ↔ ∃ n, raw = slashes n).
Proof.
  destruct (stripTrailingSlashes_decompose raw) as [[n Hn] Hlast].
  split; [by exists n |]. split; [done |].
  split; [by apply stripTrailingSlashes_fixed |].
  split.
  - intros He. exists n. by rewrite He in Hn.
  - intros [k ->]. apply stripTrailingSlashes_slashes.
Qed.

Lemma env_or_backend s b : s ≠ ""%string → env_or (Some s) b = s.
Proof.
  intros Hs. unfold env_or. destruct (String.eqb_spec s ""); [done | done].
Qed.

(** X2. How [useOptionalGameApi] reads its configuration: a non-empty
    [REACT_APP_BACKEND_URL] wins over [REACT_APP_API_BASE]; an unset or
    empty one falls back on [REACT_APP_API_BASE]; with neither, or with
    slashes only, the client is disabled; and the base URL never ends in a
    slash. *)
Theorem useOptionalGameApi_configuration (env : ProcessEnv) :
  (∀ s, REACT_APP_BACKEND_URL env = Some s → s ≠ ""%string →
        baseUrl (useOptionalGameApi env) = stripTrailingSlashes s)
  ∧ (∀ s, REACT_APP_BACKEND_URL env = None
          ∨ REACT_APP_BACKEND_URL env = Some ""%string →
          REACT_APP_API_BASE env = Some s →
          baseUrl (useOptionalGameApi env) = stripTrailingSlashes s)
  ∧ (REACT_APP_BACKEND_URL env = None
     ∨ REACT_APP_BACKEND_URL env = Some ""%string →
     REACT_APP_API_BASE env = None →
     enabled (useOptionalGameApi env) = false)
  ∧ (enabled (useOptionalGameApi env) = false
     ↔ baseUrl (useOptionalGameApi env) = ""%string)
  ∧ last_char (baseUrl (useOptionalGameApi env)) ≠ Some "/"%char.
Proof.
  destruct env as [backend base]. unfold useOptionalGameApi. simpl.
  split; [| split; [| split; [| split]]].
  - intros s -> Hs. by rewrite env_or_backend.
  - intros s [-> | ->] ->; simpl.
    + by destruct (String.eqb_spec s "") as [-> |].
    + by destruct (String.eqb_spec s "") as [-> |].
  - by intros [-> | ->] ->.
  - rewrite negb_false_iff. apply String.eqb_eq.
  - apply stripTrailingSlashes_decompose.
Qed.

Lemma useOptionalGameApi_configuration_witness :
  baseUrl (useOptionalGameApi
             {| REACT_APP_BACKEND_URL := Some "http://localhost:3001//"%string;
                REACT_APP_API_BASE := Some "http://other/"%string |})
  = "http://localhost:3001"%string.
Proof.
  destruct (useOptionalGameApi_configuration
              {| REACT_APP_BACKEND_URL := Some "http://localhost:3001//"%string;
                 REACT_APP_API_BASE := Some "http://other/"%string |})
    as (H & _).
  rewrite (H "http://localhost:3001//"%string eq_refl); [reflexivity | discriminate].
Defined.

(** ** Saving *)

(** What [save] returns, case by case. *)
Lemma save_cases api fetch state :
  save api fetch state
  = Returned
      (if enabled api then
         match fetch (baseUrl api ++ "/api/games")%string (saveBody state) with
         | Returned res =>
             if ok res then
               match json res with Returned v => v | Thrown _ => JsNull end
             else JsNull
         | Thrown _ => JsNull
         end
       else JsNull).
Proof.
  unfold save. destruct (enabled api); simpl; [| done].
  destruct (fetch _ _) as [res | e]; simpl; [| done].
  destruct (ok res); simpl; [| done].
  by destruct (json res).
Qed.

(** X3. [save] always returns and never throws; it returns [null] when the
    client is disabled, when [fetch] throws, when the response is not [ok]
    and when reading the body as JSON throws; on an [ok] response with a
    JSON body it returns that body. *)
Theorem save_failures_return_null (api : Api) (fetch : FetchPost)
    (state : GameState) :
  (∃ v, save api fetch state = Returned v)
  ∧ (enabled api = false → save api fetch state = Returned JsNull)
  ∧ (∀ e, fetch (baseUrl api ++ "/api/games")%string (saveBody state) = Thrown e →
          save api fetch state = Returned JsNull)
  ∧ (∀ res, fetch (baseUrl api ++ "/api/games")%string (saveBody state)
            = Returned res →
            ok res = false →
            save api fetch state = Returned JsNull)
  ∧ (∀ res e, fetch (baseUrl api ++ "/api/games")%string (saveBody state)
              = Returned res →
              json res = Thrown e →
              save api fetch state = Returned JsNull)
  ∧ (∀ res v, enabled api = true →
              fetch (baseUrl api ++ "/api/games")%string (saveBody state)
              = Returned res →
              ok res = true → json res = Returned v →
              save api fetch state = Returned v).
Proof.
  rewrite save_cases.
  split; [by eexists |].
  split; [by intros -> |].
  split; [intros e ->; by destruct (enabled api) |].
  split; [intros res -> ->; by destruct (enabled api) |].
  split.
  - intros res e -> ->. destruct (enabled api); [| done]. by destruct (ok res).
  - by intros res v -> -> -> ->.
Qed.

Lemma save_failures_return_null_witness :
  save api_local post_refused game_after_x0 = Returned JsNull
  ∧ save api_local post_echo game_after_x0 = Returned (saveBody game_after_x0).
Proof.
  destruct (save_failures_return_null api_local post_refused game_after_x0)
    as (_ & _ & _ & Hrefused & _).
  destruct (save_failures_return_null api_local post_echo game_after_x0)
    as (_ & _ & _ & _ & _ & Hecho).
  split.
  - by apply (Hrefused {| ok := false; json := Returned (JsString "error") |}).
  - by apply (Hecho {| ok := true; json := Returned (saveBody game_after_x0) |}).
Defined.

(** X4. The timer callback never throws and never touches the game; it
    leaves the API status at "Synced" when [save] returned a non-empty
    value and at "Offline" otherwise, so on every failure of the save. *)
Theorem saveDebounced_reports_status (api : Api) (fetch : FetchPost)
    (captured : GameState) (st : AppState) :
  ∃ st' saved,
    saveDebounced api fetch captured st = Returned st'
    ∧ save api fetch captured = Returned saved
    ∧ game st' = game st
    ∧ apiStatus st' = (if truthy saved then "Synced" else "Offline")%string
    ∧ (enabled api = false → apiStatus st' = "Offline"%string)
    ∧ (∀ e, fetch (baseUrl api ++ "/api/games")%string (saveBody captured)
            = Thrown e →
            apiStatus st' = "Offline"%string)
    ∧ (∀ res, fetch (baseUrl api ++ "/api/games")%string (saveBody captured)
              = Returned res →
              ok res = false →
              apiStatus st' = "Offline"%string).
Proof.
  unfold saveDebounced. rewrite save_cases. simpl.
  eexists _, _. split; [reflexivity |]. split; [reflexivity |].
  split; [done |]. split; [done |].
  split; [by intros -> |].
  split; [intros e ->; by destruct (enabled api) |].
  intros res -> ->. by destruct (enabled api).
Qed.

Lemma saveDebounced_reports_status_witness :
  ∃ st',
    saveDebounced api_local post_refused game_after_x0
      {| game := game_after_x0; apiStatus := "Synced" |}
    = Returned st'
    ∧ apiStatus st' = "Offline"%string.
Proof.
  destruct (saveDebounced_reports_status api_local post_refused game_after_x0
              {| game := game_after_x0; apiStatus := "Synced" |})
    as (st' & saved & Hr & _ & _ & _ & _ & _ & Hrefused).
  exists st'. split; [exact Hr |].
  by apply (Hrefused {| ok := false; json := Returned (JsString "error") |}).
Defined.

(** ** The debounce timer *)

(** Only the timer the ref points at can be pending. *)
Lemma timers_pending_is_ref api t :
  timers_reachable api t →
  ∀ id g, pending t !! id = Some g → saveDebounceRef t = Some id.
Proof.
  induction 1 as [| g t _ IH | t _ IH | id g t t' _ IH Hfire]; intros i gi.
  - simpl. by rewrite lookup_empty.
  - unfold saveEffect. destruct (enabled api); simpl; [| apply IH].
    unfold clearSaveTimer. destruct (saveDebounceRef t) as [old |] eqn:Href; simpl.
    + destruct (decide (i = S (lastTimer t))) as [-> | Hne]; [done |].
      rewrite lookup_insert_ne by done.
      destruct (decide (i = old)) as [-> | Hne'].
      * by rewrite lookup_delete_eq.
      * rewrite lookup_delete_ne by done. intros Hp.
        apply IH in Hp. congruence.
    + destruct (decide (i = S (lastTimer t))) as [-> | Hne]; [done |].
      rewrite lookup_insert_ne by done. intros Hp.
      apply IH in Hp. congruence.
  - unfold saveEffectCleanup. destruct (enabled api); simpl; [| apply IH].
    unfold clearSaveTimer. destruct (saveDebounceRef t) as [old |] eqn:Href; simpl.
    + destruct (decide (i = old)) as [-> | Hne'].
      * by rewrite lookup_delete_eq.
      * rewrite lookup_delete_ne by done. intros Hp.
        apply IH in Hp. congruence.
    + rewrite Href. apply IH.
  - unfold timerFires in Hfire.
    destruct (pending t !! id) as [g' |] eqn:Hid; [| done].
    injection Hfire as <- <-. simpl.
    destruct (decide (i = id)) as [-> | Hne].
    + by rewrite lookup_delete_eq.
    + rewrite lookup_delete_ne by done. apply IH.
Qed.

(** Clearing the timer of the ref empties the table. *)
Lemma clearSaveTimer_empties api t :
  timers_reachable api t → pending (clearSaveTimer t) = ∅.
Proof.
  intros Hr. apply map_eq. intros i. rewrite lookup_empty.
  unfold clearSaveTimer.
  destruct (saveDebounceRef t) as [old |] eqn:Href; simpl.
  - destruct (decide (i = old)) as [-> | Hne]; [by rewrite lookup_delete_eq |].
    rewrite lookup_delete_ne by done.
    destruct (pending t !! i) as [g |] eqn:Hp; [| done].
    apply (timers_pending_is_ref _ _ Hr) in Hp. congruence.
  - destruct (pending t !! i) as [g |] eqn:Hp; [| done].
    apply (timers_pending_is_ref _ _ Hr) in Hp. congruence.
Qed.

(** A disabled client never sets a timer. *)
Lemma timers_disabled_empty api t :
  enabled api = false → timers_reachable api t → t = noTimers.
Proof.
  intros He. induction 1 as [| g t _ IH | t _ IH | id g t t' _ IH Hfire].
  - done.
  - unfold saveEffect. by rewrite He.
  - unfold saveEffectCleanup. by rewrite He.
  - subst t. discriminate Hfire.
Qed.

(** X5. Saves are debounced: whatever effect runs, cleanups and firings
    came before, at most one save is pending; after the effect has run for
    a game, exactly one save is pending and it will send that game; after a
    cleanup none is; and a disabled client never has one. *)
Theorem saveEffect_single_pending_save (api : Api) (t : Timers) :
  timers_reachable api t →
  (∀ id1 id2 g1 g2,
     pending t !! id1 = Some g1 → pending t !! id2 = Some g2 → id1 = id2)
  ∧ (enabled api = true →
     ∀ g, pending (saveEffect api g t) = {[ S (lastTimer t) := g ]}
          ∧ saveDebounceRef (saveEffect api g t) = Some (S (lastTimer t)))
  ∧ (enabled api = true → pending (saveEffectCleanup api t) = ∅)
  ∧ (enabled api = false → pending t = ∅).
Proof.
  intros Hr. split; [| split; [| split]].
  - intros id1 id2 g1 g2 H1 H2.
    apply (timers_pending_is_ref _ _ Hr) in H1, H2. congruence.
  - intros He g. unfold saveEffect. rewrite He. simpl.
    pose proof (clearSaveTimer_empties _ _ Hr) as Hempty.
    assert (lastTimer (clearSaveTimer t) = lastTimer t) as Hlast.
    { unfold clearSaveTimer. by destruct (saveDebounceRef t). }
    rewrite Hempty, Hlast. by rewrite insert_empty.
  - intros He. unfold saveEffectCleanup. rewrite He. simpl.
    by apply (clearSaveTimer_empties api).
  - intros He. by rewrite (timers_disabled_empty _ _ He Hr).
Qed.

Lemma saveEffect_single_pending_save_witness :
  pending (saveEffect api_local game_after_x0
             (saveEffect api_local (createEmptyGameState "t0") noTimers))
  = {[ 2 := game_after_x0 ]}.
Proof.
  destruct (saveEffect_single_pending_save api_local
              (saveEffect api_local (createEmptyGameState "t0") noTimers))
    as (_ & H & _).
  - apply timers_effect. apply timers_init.
  - destruct (H eq_refl game_after_x0) as [Hp _]. exact Hp.
Defined.

(** ** Clicks *)

(** What an accepted click stores. *)
Lemma handleSquareClick_accepted numberToString now g i :
  canPlay g = true → truthy (Js.index (board g) i) = false →
  handleSquareClick numberToString now g i
  = let nextBoard := assign (board g) i (JsString (nextPlayer g)) in
    let np := (if (nextPlayer g =? "X")%string then "O" else "X")%string in
    let derived := deriveStatus numberToString nextBoard np in
    {| board := nextBoard;
       nextPlayer := np;
       status := Derived.status derived;
       winner := Derived.winner derived;
       isDraw := Derived.isDraw derived;
       moves := number_of_nat (Derived.moves derived);
       updatedAt := JsString now |}.
Proof. intros Hc He. unfold handleSquareClick. by rewrite Hc, He. Qed.

(** A click is ignored, or accepted. *)
Lemma handleSquareClick_ignored_or_accepted numberToString now g i :
  (cellDisabled g (Js.index (board g) i) = true
   ∧ handleSquareClick numberToString now g i = g)
  ∨ (canPlay g = true ∧ truthy (Js.index (board g) i) = false).
Proof.
  unfold cellDisabled, handleSquareClick.
  destruct (canPlay g); simpl; [| by left].
  destruct (truthy (Js.index (board g) i)); [by left | by right].
Qed.

(** The turn an accepted click hands over is never the turn it had. *)
Lemma flipped_turn_differs (np : string) :
  (if (np =? "X")%string then "O" else "X")%string ≠ np.
Proof. destruct (String.eqb_spec np "X") as [-> | Hne]; [done | congruence]. Qed.

(** Counting after the update of a cell that did not count. *)
Lemma filter_length_insert (f : value → bool) (l : list value) i old v :
  l !! i = Some old → f old = false →
  length (List.filter f (<[i := v]> l))
  = length (List.filter f l) + (if f v then 1 else 0).
Proof.
  revert i. induction l as [| x l IH]; intros [| i] Hl Hold; simpl in *;
    try discriminate.
  - injection Hl as ->. rewrite Hold. destruct (f v); simpl; lia.
  - destruct (f x); simpl; rewrite (IH i Hl Hold); lia.
Qed.

(** X6. The buttons the view disables are exactly the cells on which a
    click is ignored: a click on a disabled cell leaves the state as it
    was, and a click on any other cell changes it. *)
Theorem cellDisabled_iff_click_ignored numberToString now (game : GameState)
    (index : nat) :
  cellDisabled game (Js.index (board game) index) = true
  ↔ handleSquareClick numberToString now game index = game.
Proof.
  destruct (handleSquareClick_ignored_or_accepted numberToString now game index)
    as [[Hd Hi] | [Hc He]]; [done |].
  split.
  - unfold cellDisabled. by rewrite Hc, He.
  - rewrite (handleSquareClick_accepted _ _ _ _ Hc He). intros Heq.
    apply (f_equal nextPlayer) in Heq. simpl in Heq.
    by apply flipped_turn_differs in Heq.
Qed.

(** X7. A click never changes a cell that holds something: marks, once
    placed, stay where they are until a reset or a load. *)
Theorem handleSquareClick_keeps_filled_cells numberToString now
    (game : GameState) (index cell : nat) :
  truthy (Js.index (board game) cell) = true →
  Js.index (board (handleSquareClick numberToString now game index)) cell
  = Js.index (board game) cell.
Proof.
  intros Hfilled.
  destruct (handleSquareClick_ignored_or_accepted numberToString now game index)
    as [[_ ->] | [Hc He]]; [done |].
  rewrite (handleSquareClick_accepted _ _ _ _ Hc He). simpl.
  apply index_assign_ne. intros ->. congruence.
Qed.

Lemma handleSquareClick_keeps_filled_cells_witness :
  Js.index (board (handleSquareClick (λ _, ""%string) "t2" game_after_x0 4)) 0
  = markX.
Proof.
  rewrite (handleSquareClick_keeps_filled_cells (λ _, ""%string) "t2"
             game_after_x0 4 0); reflexivity.
Defined.

(** X8. An accepted click on a cell of the board adds exactly one to the
    number of non-empty cells, and [moves] is that number. *)
Theorem handleSquareClick_counts_one_more numberToString now (game : GameState)
    (index : nat) :
  canPlay game = true →
  index < length (board game) →
  truthy (Js.index (board game) index) = false →
  nextPlayer game ≠ ""%string →
  count_filled (board (handleSquareClick numberToString now game index))
  = S (count_filled (board game))
  ∧ moves (handleSquareClick numberToString now game index)
    = number_of_nat (S (count_filled (board game))).
Proof.
  intros Hc Hi He Hnp.
  rewrite (handleSquareClick_accepted _ _ _ _ Hc He). simpl.
  rewrite deriveStatus_moves, (assign_insert _ _ _ Hi).
  destruct (lookup_lt_is_Some_2 _ _ Hi) as [old Hold].
  assert (length (List.filter truthy
                    (<[index := JsString (nextPlayer game)]> (board game)))
          = S (count_filled (board game))) as Hcount.
  { rewrite (filter_length_insert truthy _ _ old); [| done |].
    - simpl. destruct (String.eqb_spec (nextPlayer game) ""); [done |].
      unfold count_filled. simpl. lia.
    - unfold Js.index in He. by rewrite Hold in He. }
  unfold count_filled at 1. by rewrite Hcount.
Qed.

Lemma handleSquareClick_counts_one_more_witness :
  count_filled (board (handleSquareClick (λ _, ""%string) "t2" game_after_x0 4))
  = 2.
Proof.
  assert (4 < length (board game_after_x0)) as Hi by (vm_compute; lia).
  destruct (handleSquareClick_counts_one_more (λ _, ""%string) "t2"
              game_after_x0 4 eq_refl Hi eq_refl) as [H _]; [discriminate |].
  exact H.
Defined.

(** ** The shape of every state *)

Lemma createEmptyGameState_shape numberToString now :
  state_shape numberToString (createEmptyGameState now).
Proof. split; [done |]. split; [by left | done]. Qed.

Lemma handleSquareClick_shape numberToString now g i :
  i < length (board g) →
  state_shape numberToString g →
  state_shape numberToString (handleSquareClick numberToString now g i).
Proof.
  intros Hi Hg.
  destruct (handleSquareClick_ignored_or_accepted numberToString now g i)
    as [[_ ->] | [Hc He]]; [done |].
  rewrite (handleSquareClick_accepted _ _ _ _ Hc He).
  destruct Hg as (Hlen & Hnp & _). split; [| split]; simpl.
  - by rewrite (assign_insert _ _ _ Hi), length_insert.
  - destruct Hnp as [-> | ->]; [by right | by left].
  - done.
Qed.

Lemma snapshot_accepted_length loaded :
  snapshot_accepted loaded = true → length (items (prop loaded "board")) = 9.
Proof.
  intros Ha. apply snapshot_accepted_iff in Ha as (cells & -> & Hlen). exact Hlen.
Qed.

Lemma loadedGameState_shape numberToString now loaded :
  snapshot_accepted loaded = true →
  state_shape numberToString (loadedGameState numberToString now loaded).
Proof.
  intros Ha. split; [| split]; simpl.
  - by apply snapshot_accepted_length.
  - destruct (strict_eq _ _); [by right | by left].
  - done.
Qed.

(** X9. Whatever the backend answers, every state the component reaches
    has a board of nine cells, X or O to move, and the status text that
    [deriveStatus] gives for its board and turn. *)
Theorem reachable_state_shape numberToString (admits : value → Prop)
    (api : Api) (g : GameState) :
  reachable numberToString admits api g → state_shape numberToString g.
Proof.
  induction 1 as [now | now g index _ IH Hi | now g _ _
                  | fetch cancelled now g s loaded st' _ IH Hl _ Hrun].
  - apply createEmptyGameState_shape.
  - by apply handleSquareClick_shape.
  - apply createEmptyGameState_shape.
  - destruct (enabled api) eqn:He.
    + rewrite (run_cases _ _ _ _ _ _ _ He Hl) in Hrun. injection Hrun as <-.
      destruct cancelled; [done |].
      destruct (snapshot_accepted loaded) eqn:Ha; [| done].
      by apply loadedGameState_shape.
    + rewrite (run_disabled _ _ _ _ _ _ He) in Hrun. by injection Hrun as <-.
Qed.

Lemma reachable_state_shape_witness :
  state_shape (λ _, ""%string)
    (game {| game := loadedGameState (λ _, ""%string) "t1" snapshot_inconsistent;
             apiStatus := "Synced" |}).
Proof.
  apply (reachable_state_shape (λ _, ""%string) (λ _, True) api_local).
  apply (reach_load _ _ _ (fetch_snapshot snapshot_inconsistent) false "t1"
           (createEmptyGameState "t0") "Connecting…"%string
           snapshot_inconsistent).
  - apply reach_init.
  - reflexivity.
  - exact I.
  - reflexivity.
Defined.

(** ** Save, then load *)

(** X10. A saved game comes back as it was: when the backend answers the
    load with a snapshot carrying the five fields [save] posted for a state
    that has the shape and the invariant of the data model, the load effect
    restores that state, [updatedAt] apart, and reports "Synced". *)
Theorem save_then_load_restores numberToString (api : Api) (fetch : Fetch) now
    (st : AppState) (g : GameState) (loaded : value) :
  state_shape numberToString g →
  game_invariant numberToString g →
  loadLatest api fetch = Returned loaded →
  echoes_saved g loaded →
  ∃ st', run numberToString api fetch false now st = Returned st'
         ∧ game st' = with_updatedAt (updatedAt (game st')) g
         ∧ apiStatus st' = "Synced"%string.
Proof.
  intros (Hlen & Hnp & Hstatus) (_ & Hwin & _ & Hmoves) Hl
    (Hb & Hn & Hw & Hd & Hm).
  assert (snapshot_accepted loaded = true) as Ha.
  { apply snapshot_accepted_iff. by exists (board g). }
  pose proof (snapshot_accepted_enabled _ _ _ Hl Ha) as He.
  rewrite (run_cases _ _ _ _ _ _ _ He Hl), Ha.
  eexists. split; [reflexivity |]. split; [| done]. simpl.
  unfold loadedGameState, with_updatedAt. simpl.
  rewrite Hb, Hn, Hw, Hd, Hm. simpl.
  assert ((if (nextPlayer g =? "O")%string then "O" else "X")%string
          = nextPlayer g) as Hturn.
  { by destruct Hnp as [-> | ->]. }
  rewrite Hturn, <- Hstatus, <- Hwin.
  assert (coalesce (winner g) (winner g) = winner g) as ->.
  { unfold coalesce. by destruct (nullish (winner g)). }
  assert ((if PrimFloat.is_finite (moves g) then moves g
           else number_of_nat
                  (Derived.moves (deriveStatus numberToString (board g)
                                    (nextPlayer g))))
          = moves g) as ->.
  { rewrite deriveStatus_moves, <- Hmoves. by destruct (PrimFloat.is_finite _). }
  done.
Qed.

Lemma save_then_load_restores_witness :
  ∃ st',
    run (λ _, ""%string) api_local (fetch_snapshot (saveBody game_after_x0))
      false "t3" (initialAppState api_local "t0")
    = Returned st'
    ∧ board (game st') = board game_after_x0
    ∧ nextPlayer (game st') = "O"%string.
Proof.
  destruct (save_then_load_restores (λ _, ""%string) api_local
              (fetch_snapshot (saveBody game_after_x0)) "t3"
              (initialAppState api_local "t0") game_after_x0
              (saveBody game_after_x0))
    as (st' & Hr & Hg & _).
  - split; [reflexivity |]. split; [by right | reflexivity].
  - unfold game_invariant. split; [by left |]. split; [reflexivity |].
    split; reflexivity.
  - reflexivity.
  - unfold echoes_saved. split; [reflexivity |]. split; [reflexivity |].
    split; [reflexivity |]. split; reflexivity.
  - exists st'. split; [exact Hr |]. rewrite Hg. split; reflexivity.
Defined.

(** ** The end of a game *)

(** A count that reaches the length leaves no cell out. *)
Lemma filter_length_full (f : value → bool) (l : list value) :
  length (List.filter f l) = length l ↔ Forall (λ v, f v = true) l.
Proof.
  split.
  - induction l as [| x l IH]; [by constructor |]. simpl.
    pose proof (List.filter_length_le f l) as Hle.
    destruct (f x) eqn:Hx; simpl; intros Hlen.
    + constructor; [done |]. apply IH. lia.
    + lia.
  - induction 1 as [| x l Hx _ IH]; simpl; [done |]. rewrite Hx. simpl. lia.
Qed.

(** X11. On a board of nine cells [deriveStatus] reports a draw exactly
    when every cell is non-empty and [calculateWinner] finds no line. *)
Theorem deriveStatus_draw_iff numberToString (board : list value) np :
  length board = 9 →
  Derived.isDraw (deriveStatus numberToString board np) = true
  ↔ Forall (λ v, truthy v = true) board ∧ calculateWinner board = JsNull.
Proof.
  intros Hlen. rewrite deriveStatus_isDraw. rewrite andb_true_iff.
  rewrite Nat.eqb_eq, <- Hlen, filter_length_full, negb_true_iff.
  split; intros [H1 H2]; split; try done.
  - destruct (calculateWinner_null_or_truthy board); [done | congruence].
  - by rewrite H2.
Qed.

Lemma deriveStatus_draw_iff_witness :
  Derived.isDraw (deriveStatus (λ _, ""%string) board_drawn "O") = true.
Proof.
  apply (deriveStatus_draw_iff (λ _, ""%string) board_drawn "O").
  - reflexivity.
  - split; [| reflexivity]. unfold board_drawn. repeat constructor.
Defined.

(** X12. A state that keeps the invariant and whose nine cells are all
    non-empty is over: it has a winner or is a draw, so no click is
    accepted any more. *)
Theorem full_board_not_playable numberToString (g : GameState) :
  game_invariant numberToString g →
  length (board g) = 9 →
  Forall (λ v, truthy v = true) (board g) →
  canPlay g = false
  ∧ ∀ now index, handleSquareClick numberToString now g index = g.
Proof.
  intros (_ & Hw & Hd & _) Hlen Hfull.
  assert (canPlay g = false) as Hc.
  { unfold canPlay. rewrite Hd, Hw, deriveStatus_winner, deriveStatus_isDraw.
    rewrite (filter_truthy_full _ Hfull), Hlen. simpl.
    by destruct (truthy (calculateWinner (board g))). }
  split; [done |]. intros now index. unfold handleSquareClick. by rewrite Hc.
Qed.

Lemma full_board_not_playable_witness : canPlay game_drawn = false.
Proof.
  destruct (full_board_not_playable (λ _, ""%string) game_drawn) as [H _].
  - split; [by left |]. split; [reflexivity |]. split; reflexivity.
  - reflexivity.
  - unfold game_drawn, board_drawn. simpl. repeat constructor.
  - exact H.
Defined.

(** ** Turns in local play *)

Lemma count_mark_insert m (l : list value) i v :
  l !! i = Some JsNull →
  count_mark m (<[i := v]> l)
  = count_mark m l + (if strict_eq v (JsString m) then 1 else 0).
Proof.
  intros Hl. unfold count_mark.
  by rewrite (filter_length_insert (λ v, strict_eq v (JsString m)) _ _ JsNull).
Qed.

(** On a board of marks and empty cells, the non-empty cells are the X
    and the O. *)
Lemma count_filled_marks (l : list value) :
  Forall (λ v, v = JsNull ∨ is_mark v) l →
  count_filled l = count_mark "X" l + count_mark "O" l.
Proof.
  unfold count_filled, count_mark.
  induction 1 as [| v l Hv _ IH]; [done |].
  destruct Hv as [-> | [-> | ->]]; simpl; rewrite IH; lia.
Qed.

(** Turns and mark counts in play without loads. *)
Lemma local_play_turn_counts numberToString (api : Api) (g : GameState) :
  reachable numberToString (λ _, False) api g →
  ((nextPlayer g = "X"%string
    ∧ count_mark "X" (board g) = count_mark "O" (board g))
   ∨ (nextPlayer g = "O"%string
      ∧ count_mark "X" (board g) = S (count_mark "O" (board g))))
  ∧ count_filled (board g)
    = count_mark "X" (board g) + count_mark "O" (board g).
Proof.
  intros Hr. split.
  2:{ apply count_filled_marks. by apply (local_play_well_formed _ _ _ Hr). }
  induction Hr as [now | now g index Hr IH Hi | now g _ _
                   | fetch cancelled now g s loaded st' _ _ _ [] _].
  - left. by split.
  - destruct (handleSquareClick_ignored_or_accepted numberToString now g index)
      as [[_ ->] | [Hc He]]; [done |].
    rewrite (handleSquareClick_accepted _ _ _ _ Hc He). simpl.
    rewrite (assign_insert _ _ _ Hi).
    destruct (local_play_well_formed _ _ _ Hr) as (_ & Hcells & _).
    destruct (lookup_lt_is_Some_2 _ _ Hi) as [old Hold].
    assert (old = JsNull) as ->.
    { rewrite Forall_forall in Hcells.
      destruct (Hcells old) as [-> | Hm]; [| done |].
      - apply list_elem_of_lookup. by exists index.
      - unfold Js.index in He. rewrite Hold in He. simpl in He.
        by rewrite (is_mark_truthy _ Hm) in He. }
    rewrite !(count_mark_insert _ _ _ _ Hold).
    destruct IH as [[-> Heq] | [-> Heq]]; simpl.
    + right. split; [done | lia].
    + left. split; [done | lia].
  - left. by split.
Qed.

(** X13. In play without loads the turns alternate from X: X is to move
    exactly when the board holds as many X as O, O when it holds one X
    more, and the non-empty cells are these marks. *)
Theorem local_play_turns_alternate numberToString (api : Api) (g : GameState) :
  reachable numberToString (λ _, False) api g →
  ((nextPlayer g = "X"%string
    ∧ count_mark "X" (board g) = count_mark "O" (board g))
   ∨ (nextPlayer g = "O"%string
      ∧ count_mark "X" (board g) = S (count_mark "O" (board g))))
  ∧ count_filled (board g)
    = count_mark "X" (board g) + count_mark "O" (board g).
Proof. apply local_play_turn_counts. Qed.

Lemma local_play_turns_alternate_witness :
  (nextPlayer game_after_x0 = "X"%string
   ∧ count_mark "X" (board game_after_x0) = count_mark "O" (board game_after_x0))
  ∨ (nextPlayer game_after_x0 = "O"%string
     ∧ count_mark "X" (board game_after_x0)
       = S (count_mark "O" (board game_after_x0))).
Proof.
  apply (local_play_turns_alternate (λ _, ""%string) api_local game_after_x0).
  apply reach_click; [apply reach_init | vm_compute; lia].
Defined.

(** ** The evaluator on boards of the data model *)

Lemma is_mark_not_null m : is_mark m → m ≠ JsNull.
Proof. by intros [-> | ->]. Qed.

(** The first index of a line of three [m] holds [m]. *)
Lemma three_in_line_start board line m :
  three_in_line board line m → index board (line_start line) = m.
Proof. destruct line as [[a b] c]. by intros (Ha & _). Qed.

(** On a board of marks and empty cells: a line that passes the test makes
    the result the mark of the first such line. *)
Lemma calculateWinner_marks_first (board : list value) line :
  Forall (λ v, v = JsNull ∨ is_mark v) board →
  line ∈ lines → line_holds board line = true →
  ∃ l m, l ∈ lines ∧ is_mark m ∧ three_in_line board l m
         ∧ calculateWinner board = m.
Proof.
  intros Hwf Hin Hh.
  destruct (calculateWinner_some_line _ _ Hin Hh)
    as (before & l & after & Hl & _ & Hlh & Hr).
  apply (line_holds_iff_marks _ _ Hwf) in Hlh as (m & Hm & H3).
  exists l, m. split; [| split; [done | split; [done |]]].
  - rewrite Hl. apply elem_of_app. right. apply list_elem_of_here.
  - by rewrite Hr, (three_in_line_start _ _ _ H3).
Qed.

(** X14. On a board of marks and empty cells the evaluator is sound and
    complete: its result is [null] or a mark; it is [null] exactly when no
    line holds three equal marks; and a mark it returns fills some line. *)
Theorem calculateWinner_decides_lines (board : list value) :
  Forall (λ v, v = JsNull ∨ is_mark v) board →
  (calculateWinner board = JsNull ∨ is_mark (calculateWinner board))
  ∧ (calculateWinner board = JsNull
     ↔ ¬ ∃ line m, line ∈ lines ∧ is_mark m ∧ three_in_line board line m)
  ∧ (∀ m, is_mark m → calculateWinner board = m →
          ∃ line, line ∈ lines ∧ three_in_line board line m).
Proof.
  intros Hwf.
  destruct (calculateWinner_loop_first board lines)
    as [(before & line & after & Hl & _ & Hh & _) | [Hnone Hnull]].
  - assert (line ∈ lines) as Hin.
    { rewrite Hl. apply elem_of_app. right. apply list_elem_of_here. }
    destruct (calculateWinner_marks_first _ _ Hwf Hin Hh)
      as (l & m & Hlin & Hm & H3 & Hr).
    rewrite Hr. split; [by right |]. split.
    + split; [intros Hnull; by apply is_mark_not_null in Hm |].
      intros Hno. exfalso. apply Hno. by exists l, m.
    + intros m' _ <-. by exists l.
  - fold (calculateWinner board) in Hnull. rewrite Hnull.
    split; [by left |]. split.
    + split; [| done]. intros _ (line & m & Hin & Hm & H3).
      rewrite Forall_forall in Hnone. specialize (Hnone _ Hin).
      by rewrite (three_marks_line_holds _ _ _ Hm H3) in Hnone.
    + intros m Hm Heq. symmetry in Heq. by apply is_mark_not_null in Hm.
Qed.

Lemma calculateWinner_decides_lines_witness :
  calculateWinner board_drawn = JsNull ∨ is_mark (calculateWinner board_drawn).
Proof.
  destruct (calculateWinner_decides_lines board_drawn) as (H & _).
  - unfold board_drawn, is_mark.
    repeat (apply List.Forall_cons; [auto |]). apply List.Forall_nil.
  - exact H.
Defined.

(** ** The view *)

(** X15. The status pill and the help text always tell the same story as
    the click handler: "playing" and the playing help exactly when clicks
    are accepted, "winner" with the winner's help, "draw" with the draw
    help. *)
Theorem statusPill_agrees_with_helpText (game : GameState) :
  (statusPillState game = "playing"%string ↔ canPlay game = true)
  ∧ (canPlay game = true ↔ helpText game = HelpPlaying (nextPlayer game))
  ∧ (statusPillState game = "winner"%string
     ↔ helpText game = HelpWins (winner game))
  ∧ (statusPillState game = "draw"%string ↔ helpText game = HelpDraw).
Proof.
  unfold statusPillState, helpText, canPlay.
  destruct (truthy (winner game)), (isDraw game); simpl;
    repeat split; intros H; done.
Qed.

(** ** Who wins in local play *)

(** Play without loads keeps the invariant of the game state. *)
Lemma local_play_invariant numberToString api g :
  reachable numberToString (λ _, False) api g → game_invariant numberToString g.
Proof.
  induction 1 as [now | now g index _ IH _ | now g _ _
                  | fetch cancelled now g s loaded st' _ _ _ [] _].
  - apply createEmptyGameState_invariant.
  - by apply handleSquareClick_invariant.
  - apply createEmptyGameState_invariant.
Qed.

(** A line away from the assigned cell passes the test as before. *)
Lemma line_holds_assign_other board i v a b c :
  a ≠ i → b ≠ i → c ≠ i →
  line_holds (assign board i v) (a, b, c) = line_holds board (a, b, c).
Proof.
  intros Ha Hb Hc. rewrite !line_holds_unfold.
  by rewrite !(index_assign_ne board i) by done.
Qed.

(** A playable state that keeps the invariant has no complete line. *)
Lemma playable_no_line numberToString g line :
  game_invariant numberToString g → canPlay g = true →
  line ∈ lines → line_holds (board g) line = false.
Proof.
  intros (_ & Hw & _) Hc Hin.
  destruct (line_holds (board g) line) eqn:Hh; [| done].
  destruct (calculateWinner_some_line _ _ Hin Hh)
    as (before & [[a b] c] & after & _ & _ & Hlh & Hr).
  unfold canPlay in Hc. rewrite Hw, deriveStatus_winner, Hr in Hc.
  rewrite line_holds_unfold in Hlh. unfold line_start in Hc. simpl in Hc.
  by destruct (truthy (index (board g) a)).
Qed.

(** After an accepted click every complete line goes through the new mark. *)
Lemma accepted_click_lines numberToString now g i line m :
  game_invariant numberToString g → canPlay g = true →
  truthy (Js.index (board g) i) = false →
  line ∈ lines → is_mark m →
  three_in_line (board (handleSquareClick numberToString now g i)) line m →
  m = JsString (nextPlayer g).
Proof.
  intros Hinv Hc He Hin Hm. rewrite (handleSquareClick_accepted _ _ _ _ Hc He).
  simpl. destruct line as [[a b] c]. intros (Ha & Hb & Hc3).
  destruct (decide (a = i)) as [-> | Hai];
    [by rewrite index_assign_eq in Ha |].
  destruct (decide (b = i)) as [-> | Hbi];
    [by rewrite index_assign_eq in Hb |].
  destruct (decide (c = i)) as [-> | Hci];
    [by rewrite index_assign_eq in Hc3 |].
  exfalso.
  pose proof (playable_no_line _ _ _ Hinv Hc Hin) as Hno.
  rewrite <- (line_holds_assign_other _ i (JsString (nextPlayer g))) in Hno
    by done.
  rewrite (three_marks_line_holds _ (a, b, c) m) in Hno; [done | done |].
  by repeat split.
Qed.

(** In play without loads, a complete line holds the mark of the player
    who moved last. *)
Lemma local_play_lines_last_mover numberToString api g line m :
  reachable numberToString (λ _, False) api g →
  line ∈ lines → is_mark m → three_in_line (board g) line m →
  m = last_mover g.
Proof.
  intros Hr Hin Hm. revert line m Hin Hm.
  induction Hr as [now | now g index Hr IH Hi | now g _ _
                   | fetch cancelled now g s loaded st' _ _ _ [] _];
    intros line m Hin Hm H3.
  - exfalso. destruct line as [[a b] c]. destruct H3 as (Ha & _).
    destruct Hm as [-> | ->];
      by destruct a as [| [| [| [| [| [| [| [| [| a]]]]]]]]].
  - destruct (handleSquareClick_ignored_or_accepted numberToString now g index)
      as [[_ Heq] | [Hc He]].
    + rewrite Heq in *. by apply (IH line).
    + pose proof (local_play_invariant _ _ _ Hr) as Hinv.
      rewrite (accepted_click_lines _ _ _ _ _ _ Hinv Hc He Hin Hm H3).
      rewrite (handleSquareClick_accepted _ _ _ _ Hc He).
      unfold last_mover. simpl.
      destruct (local_play_well_formed _ _ _ Hr) as (_ & _ & [-> | ->]); done.
  - exfalso. destruct line as [[a b] c]. destruct H3 as (Ha & _).
    destruct Hm as [-> | ->];
      by destruct a as [| [| [| [| [| [| [| [| [| a]]]]]]]]].
Qed.

(** X16. In play without loads the evaluator names every complete line:
    whenever a line of the board holds three equal marks, [calculateWinner]
    returns that mark, the state's [winner] is that mark, and it is the
    mark of the player who moved last. *)
Theorem local_play_winner_is_line_mark numberToString (api : Api)
    (g : GameState) line m :
  reachable numberToString (λ _, False) api g →
  line ∈ lines → is_mark m → three_in_line (board g) line m →
  calculateWinner (board g) = m
  ∧ winner g = m
  ∧ m = last_mover g.
Proof.
  intros Hr Hin Hm H3.
  destruct (local_play_well_formed _ _ _ Hr) as (_ & Hwf & _).
  destruct (calculateWinner_marks_first _ _ Hwf Hin
              (three_marks_line_holds _ _ _ Hm H3))
    as (l & m' & Hlin & Hm' & H3' & Hr').
  pose proof (local_play_lines_last_mover _ _ _ _ _ Hr Hin Hm H3) as Hlast.
  pose proof (local_play_lines_last_mover _ _ _ _ _ Hr Hlin Hm' H3') as Hlast'.
  assert (calculateWinner (board g) = m) as Hw by congruence.
  split; [done |]. split; [| done].
  destruct (local_play_invariant _ _ _ Hr) as (_ & -> & _).
  by rewrite deriveStatus_winner.
Qed.

Lemma game_top_row_reachable :
  reachable (λ _, ""%string) (λ _, False) api_local game_top_row.
Proof.
  unfold game_top_row.
  repeat (apply reach_click; [| vm_compute; lia]). apply reach_init.
Qed.

Lemma local_play_winner_is_line_mark_witness :
  calculateWinner (board game_top_row) = markX
  ∧ winner game_top_row = markX
  ∧ markX = last_mover game_top_row.
Proof.
  apply (local_play_winner_is_line_mark (λ _, ""%string) api_local game_top_row
           (0, 1, 2) markX).
  - apply game_top_row_reachable.
  - unfold lines. apply list_elem_of_here.
  - by left.
  - by repeat split.
Defined.

(** ** How early a game can end *)

Lemma filter_count_one (f : value → bool) (l : list value) i x :
  l !! i = Some x → f x = true → 1 ≤ length (List.filter f l).
Proof.
  revert i. induction l as [| y l IH]; intros [| i] Hl Hx; simpl in *;
    try discriminate.
  - injection Hl as ->. rewrite Hx. simpl. lia.
  - specialize (IH i Hl Hx). destruct (f y); simpl; lia.
Qed.

Lemma filter_count_two (f : value → bool) (l : list value) i j x y :
  i < j → l !! i = Some x → f x = true → l !! j = Some y → f y = true →
  2 ≤ length (List.filter f l).
Proof.
  revert i j. induction l as [| z l IH]; intros [| i] [| j] Hij Hi Hx Hj Hy;
    simpl in *; try discriminate; try lia.
  - injection Hi as ->. rewrite Hx. simpl.
    pose proof (filter_count_one f l j y Hj Hy). lia.
  - assert (i < j) as Hij' by lia.
    specialize (IH i j Hij' Hi Hx Hj Hy). destruct (f z); simpl; lia.
Qed.

Lemma filter_count_three (f : value → bool) (l : list value) i j k x y z :
  i < j → j < k →
  l !! i = Some x → f x = true → l !! j = Some y → f y = true →
  l !! k = Some z → f z = true →
  3 ≤ length (List.filter f l).
Proof.
  revert i j k.
  induction l as [| w l IH]; intros [| i] [| j] [| k] Hij Hjk Hi Hx Hj Hy Hk Hz;
    simpl in *; try discriminate; try lia.
  - injection Hi as ->. rewrite Hx. simpl.
    assert (j < k) as Hjk' by lia.
    pose proof (filter_count_two f l j k y z Hjk' Hj Hy Hk Hz). lia.
  - assert (i < j) as Hij' by lia. assert (j < k) as Hjk' by lia.
    specialize (IH i j k Hij' Hjk' Hi Hx Hj Hy Hk Hz).
    destruct (f w); simpl; lia.
Qed.

(** The triples of [lines] are increasing. *)
Lemma lines_increasing a b c : (a, b, c) ∈ lines → a < b ∧ b < c.
Proof.
  unfold lines. intros Hin.
  repeat (apply elem_of_cons in Hin as [[= -> -> ->] | Hin]; [lia |]).
  by apply elem_of_nil in Hin.
Qed.

(** A cell that reads as a mark is a cell of the board. *)
Lemma index_mark_lookup (board : list value) i s :
  index board i = JsString s → board !! i = Some (JsString s).
Proof.
  unfold index. destruct (board !! i) as [v |]; simpl; intros H;
    [by subst | discriminate H].
Qed.

(** A complete line of [s] means at least three [s] on the board. *)
Lemma three_in_line_count board line s :
  line ∈ lines → three_in_line board line (JsString s) →
  3 ≤ count_mark s board.
Proof.
  destruct line as [[a b] c]. intros Hin (Ha & Hb & Hc).
  destruct (lines_increasing _ _ _ Hin) as [Hab Hbc].
  apply index_mark_lookup in Ha, Hb, Hc.
  unfold count_mark.
  apply (filter_count_three (λ v, strict_eq v (JsString s)) board a b c
           _ _ _ Hab Hbc Ha
           (strict_eq_string_refl s) Hb (strict_eq_string_refl s) Hc
           (strict_eq_string_refl s)).
Qed.

(** X17. In play without loads nobody wins before the fifth move: a state
    with a winner has at least five non-empty cells. *)
Theorem local_play_no_win_before_fifth_move numberToString (api : Api)
    (g : GameState) :
  reachable numberToString (λ _, False) api g →
  winner g ≠ JsNull →
  5 ≤ count_filled (board g).
Proof.
  intros Hr Hw.
  destruct (local_play_invariant _ _ _ Hr) as (_ & Hwin & _).
  rewrite Hwin, deriveStatus_winner in Hw.
  destruct (local_play_well_formed _ _ _ Hr) as (_ & Hwf & _).
  destruct (calculateWinner_loop_first (board g) lines)
    as [(before & line & after & Hl & _ & Hh & _) | [_ Hnull]]; [| done].
  assert (line ∈ lines) as Hin.
  { rewrite Hl. apply elem_of_app. right. apply list_elem_of_here. }
  apply (line_holds_iff_marks _ _ Hwf) in Hh as (m & Hm & H3).
  destruct (local_play_turn_counts _ _ _ Hr) as [Hturn ->].
  destruct Hm as [-> | ->];
    pose proof (three_in_line_count _ _ _ Hin H3) as H3';
    destruct Hturn as [[_ Heq] | [_ Heq]]; lia.
Qed.

Lemma local_play_no_win_before_fifth_move_witness :
  5 ≤ count_filled (board game_top_row).
Proof.
  apply (local_play_no_win_before_fifth_move (λ _, ""%string) api_local).
  - apply game_top_row_reachable.
  - discriminate.
Defined.

(** ** Loads that fail, and the disabled client *)

(** X18. A load that fails is not reported as a failure: with an enabled
    client, when [fetch] throws or the response is not [ok], the load
    effect (unless cancelled) leaves the game as it was and sets the API
    status to "Online (no saved game)". *)
Theorem run_failed_load_reports_no_saved_game numberToString (api : Api)
    (fetch : Fetch) now (st : AppState) :
  enabled api = true →
  (∃ e, fetch (baseUrl api ++ "/api/games/latest")%string = Thrown e)
  ∨ (∃ res, fetch (baseUrl api ++ "/api/games/latest")%string = Returned res
            ∧ ok res = false) →
  run numberToString api fetch false now st
  = Returned {| game := game st; apiStatus := "Online (no saved game)" |}.
Proof.
  intros He Hfail.
  assert (loadLatest api fetch = Returned JsNull) as Hl.
  { unfold loadLatest. rewrite He. simpl.
    destruct Hfail as [[e ->] | (res & -> & Hok)]; simpl; [done |].
    by rewrite Hok. }
  by rewrite (run_cases _ _ _ _ _ _ _ He Hl).
Qed.

Lemma run_failed_load_reports_no_saved_game_witness :
  run (λ _, ""%string) api_local fetch_unreachable false "t1"
    (initialAppState api_local "t0")
  = Returned {| game := createEmptyGameState "t0";
                apiStatus := "Online (no saved game)" |}.
Proof.
  apply (run_failed_load_reports_no_saved_game (λ _, ""%string) api_local
           fetch_unreachable "t1" (initialAppState api_local "t0")).
  - reflexivity.
  - left. by exists (JsString "TypeError: Failed to fetch").
Defined.

(** X19. A disabled client is inert: the results of [loadLatest] and
    [save] are [null] whatever the network would answer, the load effect,
    the save effect and its cleanup leave the cells and the timers as they
    are, the component starts "Offline", and the pill reads
    "API: Disabled". *)
Theorem disabled_client_is_inert numberToString (api : Api) :
  enabled api = false →
  (∀ fetch, loadLatest api fetch = Returned JsNull)
  ∧ (∀ fetch state, save api fetch state = Returned JsNull)
  ∧ (∀ fetch cancelled now st,
       run numberToString api fetch cancelled now st = Returned st)
  ∧ (∀ g t, saveEffect api g t = t)
  ∧ (∀ t, saveEffectCleanup api t = t)
  ∧ (∀ now, apiStatus (initialAppState api now) = "Offline"%string)
  ∧ (∀ s, apiPillText api s = "API: Disabled"%string).
Proof.
  intros He.
  split; [intros fetch; by apply loadLatest_disabled |].
  split; [intros fetch state; by rewrite save_cases, He |].
  split; [intros fetch cancelled now st; by apply run_disabled |].
  unfold saveEffect, saveEffectCleanup, initialAppState, apiPillText.
  rewrite He. by repeat split.
Qed.

Lemma disabled_client_is_inert_witness :
  loadLatest
    (useOptionalGameApi
       {| REACT_APP_BACKEND_URL := None; REACT_APP_API_BASE := Some "///"%string |})
    fetch_unreachable
  = Returned JsNull.
Proof.
  destruct (disabled_client_is_inert (λ _, ""%string)
              (useOptionalGameApi
                 {| REACT_APP_BACKEND_URL := None;
                    REACT_APP_API_BASE := Some "///"%string |}))
    as (H & _); [reflexivity |].
  apply H.
Defined.

(** ** Cells in local play *)

(** X20. In play without loads the state stays inside the data model: nine
    cells, each empty or a mark, and X or O to move. *)
Theorem local_play_stays_in_data_model numberToString (api : Api)
    (g : GameState) :
  reachable numberToString (λ _, False) api g → well_formed g.
Proof. apply local_play_well_formed. Qed.

Lemma local_play_stays_in_data_model_witness : well_formed game_top_row.
Proof.
  apply (local_play_stays_in_data_model (λ _, ""%string) api_local).
  apply game_top_row_reachable.
Defined.
